(** * EspKeyboard: the key-matrix scanner of [sketch.ino]

    A shallow embedding of the Arduino sketch: its globals are a record, its
    functions are computations in a small state-and-trace monad, and every
    call into the Arduino core is recorded as an event of the trace.  The
    board the sketch runs on (pins, shift register, keys, clock) is an
    interface, [Board]; a simulated 74HC595 with a diode-isolated key matrix
    is given as an instance, [Rig].

    The definitions come first: the sketch, the vocabulary for speaking
    about its traces, the simulated board.  The proofs follow. *)

From Stdlib Require Import ZArith Lia.
From stdpp Require Import base list strings gmap.

Local Open Scope Z_scope.

(** * The sketch *)

(** ** Constants *)

(** [const int datapin = 18], [latchpin = 19], [clockpin = 17]. *)
Definition datapin : Z := 18.
Definition latchpin : Z := 19.
Definition clockpin : Z := 17.

(** [const int rowPins[9]]. *)
Definition rowPins : list Z := [34; 35; 32; 33; 25; 26; 27; 13; 4].

(** [const uint8_t columnSignals[8]], written in the source in binary. *)
Definition columnSignals : list Z :=
  [0x01; 0x02; 0x04; 0x08; 0x10; 0x20; 0x40; 0x80].

(** [const unsigned long printInterval = 1000]. *)
Definition printInterval : Z := 1000.

(** The settle delay passed to [delayMicroseconds] in [loop]. *)
Definition settle_us : Z := 30.

(** Arduino's [HIGH], [LOW] and the width of [unsigned long] on the ESP32. *)
Definition HIGH : Z := 1.
Definition LOW : Z := 0.
Definition ulong_modulus : Z := 2 ^ 32.

(** Subtraction of two [unsigned long] values, as C computes it. *)
Definition ulong_sub (a b : Z) : Z := (a - b) mod ulong_modulus.

(** The bit orders of [shiftOut] and the pin modes of [pinMode]. *)
Inductive BitOrder := LSBFIRST | MSBFIRST.
Inductive Mode := OUTPUT | INPUT_PULLDOWN.

(** ** Events

    A call into the Arduino core, with what it returned where it returns
    something. *)
Inductive Io : Type :=
| SerialBegin (baud : Z)
| PinMode (pin : Z) (mode : Mode)
| DigitalWrite (pin : Z) (level : bool)
| DigitalRead (pin : Z) (level : bool)
| DelayMicroseconds (us : Z)
| Millis (t : Z)
| SerialPrint (s : string)
| SerialPrintInt (n : Z)
| SerialPrintln (s : string).

(** The two driver functions of the sketch; entering and leaving them is
    recorded in the trace so that the call structure can be read off. *)
Inductive Fn : Type :=
| FclearAllColumns
| FactivateColumn (colValue : Z).

(** An event of the trace: a call into the core, or the entry or the
    return of a driver function. *)
Inductive Event : Type :=
| Call (io : Io)
| Enter (f : Fn)
| Leave (f : Fn).

(** ** The board

    What the sketch cannot see: how the hardware reacts to a call, which
    level an input pin shows, and how many milliseconds have passed since
    boot (unbounded; [millis] truncates it to an [unsigned long]). *)
Class Board (W : Type) : Type := {
  react : Io -> W -> W;
  pin_level : W -> Z -> bool;
  uptime_ms : W -> Z
}.

(** ** Globals and the monad

    The globals of the sketch, together with the board it runs on. *)
Record Sys (W : Type) : Type := MkSys {
  board : W;
  matrix : list (list Z);      (* int matrix[8][9] *)
  lastPrintTime : Z            (* unsigned long *)
}.
Arguments MkSys {W} _ _ _.
Arguments board {W} _.
Arguments matrix {W} _.
Arguments lastPrintTime {W} _.

(** What a computation gives: its value, the state after it, the events it
    caused. *)
Record Res (W A : Type) : Type := MkRes {
  value : A;
  state : Sys W;
  trace : list Event
}.
Arguments MkRes {W A} _ _ _.
Arguments value {W A} _.
Arguments state {W A} _.
Arguments trace {W A} _.

Definition M (W A : Type) : Type := Sys W -> Res W A.

Definition ret {W A} (a : A) : M W A := fun s => MkRes a s [].

Definition bind {W A B} (m : M W A) (k : A -> M W B) : M W B :=
  fun s =>
    let r1 := m s in
    let r2 := k (value r1) (state r1) in
    MkRes (value r2) (state r2) (trace r1 ++ trace r2).

Declare Scope sketch_scope.
Delimit Scope sketch_scope with sketch.
Notation "x <- m ;; k" := (bind m (fun x => k))
  (at level 100, m at next level, right associativity) : sketch_scope.
Notation "m ;; k" := (bind m (fun _ => k))
  (at level 100, right associativity) : sketch_scope.
Local Open Scope sketch_scope.

(** [for (int i = 0; i < n; i++) body]. *)
Fixpoint for_from {W} (i : nat) (count : nat) (body : nat -> M W unit) : M W unit :=
  match count with
  | O => ret tt
  | S k => body i;; for_from (S i) k body
  end.

Definition for_upto {W} (n : nat) (body : nat -> M W unit) : M W unit :=
  for_from 0 n body.

Section Sketch.
Context {W : Type} `{Board W}.

(** ** The Arduino core *)

Definition perform (io : Io) : M W unit :=
  fun s => MkRes tt (MkSys (react io (board s)) (matrix s) (lastPrintTime s))
                [Call io].

Definition mark (e : Event) : M W unit := fun s => MkRes tt s [e].

Definition level_of (val : Z) : bool := negb (val =? 0).
Definition int_of (level : bool) : Z := if level then HIGH else LOW.

Definition Serial_begin (baud : Z) : M W unit := perform (SerialBegin baud).
Definition pinMode (pin : Z) (mode : Mode) : M W unit := perform (PinMode pin mode).
Definition digitalWrite (pin val : Z) : M W unit :=
  perform (DigitalWrite pin (level_of val)).
Definition delayMicroseconds (us : Z) : M W unit := perform (DelayMicroseconds us).

Definition digitalRead (pin : Z) : M W Z :=
  fun s =>
    let level := pin_level (board s) pin in
    MkRes (int_of level) (state (perform (DigitalRead pin level) s))
          [Call (DigitalRead pin level)].

Definition millis : M W Z :=
  fun s =>
    let t := uptime_ms (board s) mod ulong_modulus in
    MkRes t (state (perform (Millis t) s)) [Call (Millis t)].

Definition Serial_print (s : string) : M W unit := perform (SerialPrint s).
Definition Serial_print_int (n : Z) : M W unit := perform (SerialPrintInt n).
Definition Serial_println (s : string) : M W unit := perform (SerialPrintln s).

(** Modelled from the spec: [shiftOut] belongs to the Arduino core, not to
    the sketch.  The specification has it transmit the eight bits of the
    byte over the data and clock pair in the order asked for; the core does
    so by putting bit [i] (LSBFIRST) or bit [7 - i] on the data pin as
    [!!(val & (1 << i))] and pulsing the clock pin high and low, for [i]
    from 0 to 7. *)
Definition shiftOut (dataPin clockPin : Z) (bitOrder : BitOrder) (val : Z) : M W unit :=
  for_upto 8 (fun i =>
    let k := match bitOrder with
             | LSBFIRST => Z.of_nat i
             | MSBFIRST => 7 - Z.of_nat i
             end in
    digitalWrite dataPin (int_of (negb (Z.land val (Z.shiftl 1 k) =? 0)));;
    digitalWrite clockPin HIGH;;
    digitalWrite clockPin LOW).

(** ** Access to the globals *)

Definition read_matrix (col row : nat) : M W Z :=
  fun s => MkRes ((matrix s !!! col) !!! row) s [].

Definition write_matrix (col row : nat) (v : Z) : M W unit :=
  fun s =>
    MkRes tt
      (MkSys (board s)
             (<[col := <[row := v]> (matrix s !!! col)]> (matrix s))
             (lastPrintTime s))
      [].

Definition get_lastPrintTime : M W Z := fun s => MkRes (lastPrintTime s) s [].

Definition set_lastPrintTime (t : Z) : M W unit :=
  fun s => MkRes tt (MkSys (board s) (matrix s) t) [].

(** ** The functions of the sketch *)

Definition clearAllColumns : M W unit :=
  mark (Enter FclearAllColumns);;
  digitalWrite latchpin LOW;;
  shiftOut datapin clockpin LSBFIRST 0;;
  digitalWrite latchpin HIGH;;
  mark (Leave FclearAllColumns).

Definition activateColumn (colValue : Z) : M W unit :=
  mark (Enter (FactivateColumn colValue));;
  digitalWrite latchpin LOW;;
  shiftOut datapin clockpin LSBFIRST colValue;;
  digitalWrite latchpin HIGH;;
  mark (Leave (FactivateColumn colValue)).

Definition setup : M W unit :=
  Serial_begin 115200;;
  pinMode datapin OUTPUT;;
  pinMode clockpin OUTPUT;;
  pinMode latchpin OUTPUT;;
  for_upto 9 (fun i => pinMode (rowPins !!! i) INPUT_PULLDOWN);;
  clearAllColumns.

(** The first part of [loop], the scan of the whole matrix: the inner loop
    over the rows of column [col], the body of the outer loop, the outer
    loop. *)
Definition read_rows (col : nat) : M W unit :=
  for_upto 9 (fun row =>
    v <- digitalRead (rowPins !!! row);;
    write_matrix col row v).

Definition scan_column (col : nat) : M W unit :=
  activateColumn (columnSignals !!! col);;
  delayMicroseconds settle_us;;
  read_rows col.

Definition scan_matrix : M W unit := for_upto 8 scan_column.

(** The last part of [loop], the report once per [printInterval]: what is
    printed, and the gate around it. *)
Definition print_matrix : M W unit :=
  Serial_println "Matrix (Rows Vertically, Cols Horizontally):";;
  Serial_print "     ";;
  for_upto 8 (fun col =>
    Serial_print "C";; Serial_print_int (Z.of_nat col);; Serial_print " ");;
  Serial_println EmptyString;;
  for_upto 9 (fun row =>
    Serial_print "R";; Serial_print_int (Z.of_nat row);; Serial_print ":  ";;
    for_upto 8 (fun col =>
      Serial_print " ";;
      v <- read_matrix col row;;
      Serial_print_int v;;
      Serial_print " ");;
    Serial_println EmptyString);;
  Serial_println "------------------------".

Definition report : M W unit :=
  now <- millis;;
  last <- get_lastPrintTime;;
  if printInterval <=? ulong_sub now last then
    t <- millis;;
    set_lastPrintTime t;;
    print_matrix
  else ret tt.

Definition loop : M W unit :=
  scan_matrix;;
  clearAllColumns;;
  report.

(** [setup] once, then [loop] [n] times, as the Arduino runtime does. *)
Fixpoint loops (n : nat) : M W unit :=
  match n with
  | O => ret tt
  | S k => loops k;; loop
  end.

Definition run (n : nat) : M W unit := setup;; loops n.

(** The clock value [millis] returns in state [s]. *)
Definition clock (s : Sys W) : Z := uptime_ms (board s) mod ulong_modulus.

(** The state in which [loop] reaches its cadence gate. *)
Definition at_gate (s : Sys W) : Sys W :=
  state (clearAllColumns (state (scan_matrix s))).

End Sketch.

(** The globals at boot: [matrix] zero-initialised, [lastPrintTime = 0]. *)
Definition boot {W} (w : W) : Sys W :=
  MkSys w (replicate 8 (replicate 9 0)) 0.

(** * Speaking about traces *)

(** The calls into the Arduino core among the events of a trace. *)
Definition calls (evs : list Event) : list Io :=
  omap (fun e => match e with Call io => Some io | _ => None end) evs.

(** One bit on the two-wire bus: the data level, then a clock pulse. *)
Definition clock_bit (b : bool) : list Io :=
  [DigitalWrite datapin b; DigitalWrite clockpin true; DigitalWrite clockpin false].

(** The bits of a byte, bit 0 first. *)
Definition lsb_first (val : Z) : list bool :=
  (fun i => Z.testbit val (Z.of_nat i)) <$> seq 0 8.

(** The bus protocol as the specification words it: latch-enable low, eight
    bits least-significant first, latch-enable high. *)
Definition bus_frame (val : Z) : list Io :=
  [DigitalWrite latchpin false]
  ++ concat (clock_bit <$> lsb_first val)
  ++ [DigitalWrite latchpin true].

(** What a driver function leaves in the trace when it sends [val]. *)
Definition driver_events (f : Fn) (val : Z) : list Event :=
  Enter f :: (Call <$> bus_frame val) ++ [Leave f].

(** The nine reads of one column, with the levels that came back. *)
Definition row_reads (lv : list bool) : list Event :=
  zip_with (fun pin level => Call (DigitalRead pin level)) rowPins lv.

(** One column of the sweep: activation, settle delay, the reads. *)
Definition column_events (pattern : Z) (lv : list bool) : list Event :=
  driver_events (FactivateColumn pattern) pattern
  ++ [Call (DelayMicroseconds settle_us)]
  ++ row_reads lv.

(** The whole sweep, for the table [tbl] of levels read, column by column. *)
Definition sweep_events (tbl : list (list bool)) : list Event :=
  concat (zip_with column_events columnSignals tbl).

(** The shape of [int matrix[8][9]]. *)
Definition matrix_shape (m : list (list Z)) : bool :=
  (length m =? 8)%nat && forallb (fun col => (length col =? 9)%nat) m.

Definition table_shape (tbl : list (list bool)) : Prop :=
  length tbl = 8%nat /\ Forall (fun lv => length lv = 9%nat) tbl.

(** The snapshot that a table of read levels amounts to. *)
Definition table_of (tbl : list (list bool)) : list (list Z) :=
  (fun lv : list bool => int_of <$> lv) <$> tbl.

(** ** The trace as a record of the interaction *)

(** The board after a sequence of calls. *)
Definition replay {W} `{Board W} (ios : list Io) (w : W) : W :=
  foldl (fun w' io => react io w') w ios.

(** A property of the board and the call it is about to take, along a
    sequence of calls. *)
Fixpoint holds_along {W} `{Board W} (Q : W -> Io -> Prop) (w : W) (ios : list Io) : Prop :=
  match ios with
  | [] => True
  | io :: rest => Q w io /\ holds_along Q (react io w) rest
  end.

(** A level or a clock value in the trace is the one the board showed. *)
Definition truthful {W} `{Board W} (w : W) (io : Io) : Prop :=
  match io with
  | DigitalRead pin level => level = pin_level w pin
  | Millis t => t = uptime_ms w mod ulong_modulus
  | _ => True
  end.

(** A sequence of calls that the board, started in [w], answers as recorded. *)
Definition observed {W} `{Board W} (w : W) (ios : list Io) : Prop :=
  holds_along truthful w ios.

(** A computation whose trace is such a record, and leads the board where
    the computation leaves it. *)
Definition Coherent {W} `{Board W} {A} (m : M W A) : Prop :=
  forall s : Sys W,
    board (state (m s)) = replay (calls (trace (m s))) (board s)
    /\ observed (board s) (calls (trace (m s))).

(** A call that returns nothing from the board. *)
Definition blind (io : Io) : bool :=
  match io with
  | DigitalRead _ _ | Millis _ => false
  | _ => true
  end.

(** The report as the specification words it: a header line, the row of
    column indices, nine rows of eight values each, a separator line. *)
Definition header_events : list Io :=
  [SerialPrintln "Matrix (Rows Vertically, Cols Horizontally):"; SerialPrint "     "]
  ++ concat ((fun col : nat =>
       [SerialPrint "C"; SerialPrintInt (Z.of_nat col); SerialPrint " "]) <$> seq 0 8)
  ++ [SerialPrintln EmptyString].

Definition row_events (m : list (list Z)) (row : nat) : list Io :=
  [SerialPrint "R"; SerialPrintInt (Z.of_nat row); SerialPrint ":  "]
  ++ concat ((fun col : nat =>
       [SerialPrint " "; SerialPrintInt ((m !!! col) !!! row); SerialPrint " "])
       <$> seq 0 8)
  ++ [SerialPrintln EmptyString].

Definition print_events (m : list (list Z)) : list Io :=
  header_events
  ++ concat (row_events m <$> seq 0 9)
  ++ [SerialPrintln "------------------------"].

(** What [Serial] received. *)
Definition is_serial (io : Io) : bool :=
  match io with
  | SerialPrint _ | SerialPrintInt _ | SerialPrintln _ => true
  | _ => false
  end.

Definition serial_output (evs : list Event) : list Io :=
  filter (fun io => is_serial io = true) (calls evs).

(** The clock values [millis] returned, in order. *)
Definition clock_readings (evs : list Event) : list Z :=
  omap (fun io => match io with Millis t => Some t | _ => None end) (calls evs).

(** * A simulated board *)

(** Modelled from the spec: the hardware around the sketch is not in its
    source.  The specification has a serial-in, parallel-out shift register
    on the three output pins, its outputs driving the eight column lines
    (bit [c] of the byte sent for column [c]), and a diode-isolated key
    matrix whose nine row lines are read through pull-downs. *)
Record Rig : Type := MkRig {
  ser : bool;                      (* level on [datapin], the register's SER *)
  srclk : bool;                    (* level on [clockpin], SRCLK *)
  rclk : bool;                     (* level on [latchpin], RCLK *)
  stage : list bool;               (* shift stages, the newest bit first *)
  q_out : list bool;               (* latched outputs QA..QH *)
  now_us : Z;                      (* microseconds since boot *)
  call_us : Z;                     (* what one call into the core costs *)
  contacts : nat -> nat -> bool    (* closed key contacts, by column and row *)
}.

(** [digitalWrite] on the rig: a rising edge on SRCLK shifts SER in, a rising
    edge on RCLK copies the shift stages to the outputs. *)
Definition rig_write (pin : Z) (level : bool) (g : Rig) : Rig :=
  if pin =? datapin then
    MkRig level (srclk g) (rclk g) (stage g) (q_out g) (now_us g) (call_us g) (contacts g)
  else if pin =? clockpin then
    MkRig (ser g) level (rclk g)
          (if negb (srclk g) && level then take 8 (ser g :: stage g) else stage g)
          (q_out g) (now_us g) (call_us g) (contacts g)
  else if pin =? latchpin then
    MkRig (ser g) (srclk g) level (stage g)
          (if negb (rclk g) && level then stage g else q_out g)
          (now_us g) (call_us g) (contacts g)
  else g.

(** Time passing on the rig. *)
Definition rig_wait (us : Z) (g : Rig) : Rig :=
  MkRig (ser g) (srclk g) (rclk g) (stage g) (q_out g)
        (now_us g + us) (call_us g) (contacts g).

(** Every call costs [call_us]; a delay costs its argument on top. *)
Definition rig_react (io : Io) (g : Rig) : Rig :=
  rig_wait (call_us g)
    match io with
    | DigitalWrite pin level => rig_write pin level g
    | DelayMicroseconds us => rig_wait us g
    | _ => g
    end.

(** The bit sent first ends in the last stage, QH: with LSBFIRST, bit [c] of
    the byte drives column line [c]. *)
Definition column_line (g : Rig) (c : nat) : bool := nth (7 - c) (q_out g) false.

(** The row a pin reads, if it is a row pin. *)
Fixpoint row_of_pin (pins : list Z) (pin : Z) : option nat :=
  match pins with
  | [] => None
  | p :: rest => if p =? pin then Some 0%nat else S <$> row_of_pin rest pin
  end.

(** A row line is high when some energised column reaches it through a
    closed contact; the pull-down keeps it low otherwise. *)
Definition rig_level (g : Rig) (pin : Z) : bool :=
  match row_of_pin rowPins pin with
  | Some r => existsb (fun c => column_line g c && contacts g c r) (seq 0 8)
  | None => false
  end.

#[export] Instance rig_board : Board Rig := {
  react := rig_react;
  pin_level := rig_level;
  uptime_ms g := now_us g / 1000
}.

(** How many column lines are high. *)
Definition columns_high (g : Rig) : nat :=
  length (filter (fun c => column_line g c = true) (seq 0 8)).

(** The rig at power-on: pins low, register cleared, the given keys held. *)
Definition power_on (keys : nat -> nat -> bool) (start_us cost_us : Z) : Rig :=
  MkRig false false false (replicate 8 false) (replicate 8 false)
        start_us cost_us keys.

(** Key sets: one key at column [c] and row [r]; none. *)
Definition key_at (c r : nat) : nat -> nat -> bool :=
  fun c' r' => (c' =? c)%nat && (r' =? r)%nat.
Definition no_keys : nat -> nat -> bool := fun _ _ => false.

(** The levels of the nine row lines while the outputs hold pattern [v]. *)
Definition row_levels (keys : nat -> nat -> bool) (v : Z) : list bool :=
  (fun r : nat =>
     existsb (fun c : nat => Z.testbit v (Z.of_nat c) && keys c r) (seq 0 8))
  <$> seq 0 9.

(** Kinds of call. *)
Definition is_read (io : Io) : Prop :=
  match io with DigitalRead _ _ => True | _ => False end.

Definition is_write (io : Io) : Prop :=
  match io with DigitalWrite _ _ => True | _ => False end.

(** * Observers: what can be read off a trace *)

(** The driver calls, in order. *)
Definition driver_calls (evs : list Event) : list Fn :=
  omap (fun e => match e with Enter f => Some f | _ => None end) evs.

(** Each read, with the pattern last handed to [activateColumn] ([None]
    once [clearAllColumns] has been entered), the pin and the level. *)
Definition Sample : Type := option Z * Z * bool.

Definition sampler (st : option Z * list Sample) (e : Event) : option Z * list Sample :=
  match e with
  | Enter (FactivateColumn v) => (Some v, st.2)
  | Enter FclearAllColumns => (None, st.2)
  | Call (DigitalRead pin level) => (st.1, st.2 ++ [(st.1, pin, level)])
  | _ => st
  end.

Definition samples (evs : list Event) : list Sample :=
  (foldl sampler (None, []) evs).2.

(** The bytes that went over the bus: the data level at each rising clock
    edge, cut into frames by the rising edge of the latch line. *)
Record Wire : Type := MkWire {
  w_data : bool;
  w_clock : bool;
  w_latch : bool;
  w_bits : list bool;
  w_frames : list (list bool)
}.

Definition wire_step (w : Wire) (e : Event) : Wire :=
  match e with
  | Call (DigitalWrite pin level) =>
      if pin =? datapin then
        MkWire level (w_clock w) (w_latch w) (w_bits w) (w_frames w)
      else if pin =? clockpin then
        MkWire (w_data w) level (w_latch w)
               (if negb (w_clock w) && level then w_bits w ++ [w_data w] else w_bits w)
               (w_frames w)
      else if pin =? latchpin then
        if negb (w_latch w) && level
        then MkWire (w_data w) (w_clock w) level [] (w_frames w ++ [w_bits w])
        else MkWire (w_data w) (w_clock w) level (w_bits w) (w_frames w)
      else w
  | _ => w
  end.

Definition transmitted (evs : list Event) : list (list bool) :=
  w_frames (foldl wire_step (MkWire false false true [] []) evs).

(** A byte with bit [c] alone set, least significant bit first. *)
Definition one_hot (c : nat) : list bool :=
  (fun i : nat => bool_decide (i = c)) <$> seq 0 8.

(** The settle check: a read is in order only after a delay of tens of
    microseconds that itself follows the return of [activateColumn], with no
    other driver call in between. *)
Inductive Phase : Type := Undriven | Driven | Settled.

Definition tens_of_us (us : Z) : bool := (10 <=? us) && (us <? 100).

Definition settle_step (st : Phase * bool) (e : Event) : Phase * bool :=
  match e with
  | Enter _ => (Undriven, st.2)
  | Leave (FactivateColumn _) => (Driven, st.2)
  | Leave FclearAllColumns => (Undriven, st.2)
  | Call (DelayMicroseconds us) =>
      match st.1 with
      | Driven => (if tens_of_us us then Settled else Driven, st.2)
      | ph => (ph, st.2)
      end
  | Call (DigitalRead _ _) =>
      match st.1 with
      | Settled => st
      | ph => (ph, false)
      end
  | _ => st
  end.

Definition reads_settled (evs : list Event) : bool :=
  (foldl settle_step (Undriven, true) evs).2.

(** The delays of a trace. *)
Definition delays (evs : list Event) : list Z :=
  omap (fun e => match e with Call (DelayMicroseconds us) => Some us | _ => None end)
       evs.

(** Events of the report: clock readings and serial output. *)
Definition chatter (e : Event) : Prop :=
  match e with
  | Call (Millis _) | Call (SerialPrint _) | Call (SerialPrintInt _)
  | Call (SerialPrintln _) => True
  | _ => False
  end.

(** The (column, row) pairs in column-major order. *)
Definition column_major : list (nat * nat) :=
  concat ((fun c : nat => (fun r : nat => (c, r)) <$> seq 0 9) <$> seq 0 8).

(** The pattern and the pin that the sample of a pair has to show. *)
Definition wanted_sample (cr : nat * nat) : option Z * Z :=
  (Some (columnSignals !!! cr.1), rowPins !!! cr.2).

(** Events can be compared. *)
#[export] Instance Mode_eq_dec : EqDecision Mode.
Proof. solve_decision. Defined.
#[export] Instance Io_eq_dec : EqDecision Io.
Proof. solve_decision. Defined.
#[export] Instance Fn_eq_dec : EqDecision Fn.
Proof. solve_decision. Defined.
#[export] Instance Event_eq_dec : EqDecision Event.
Proof. solve_decision. Defined.

(** Driver calls do not overlap: each is left before the next is entered. *)
Definition bracket_step (st : option Fn * bool) (e : Event) : option Fn * bool :=
  match e with
  | Enter f => (Some f, st.2 && bool_decide (st.1 = None))
  | Leave f => (None, st.2 && bool_decide (st.1 = Some f))
  | Call _ => st
  end.

Definition bracketed (evs : list Event) : bool :=
  let st := foldl bracket_step (None, true) evs in
  st.2 && bool_decide (st.1 = None).

(** What the rig theorems ask of the state in which a sweep starts: the
    shift clock line is low, as every driver call leaves it, and [matrix] has
    its declared shape. *)
Definition ready (s : Sys Rig) : Prop :=
  srclk (board s) = false /\ matrix_shape (matrix s) = true.

(** At a read, one column line is high. *)
Definition one_line_high (g : Rig) (io : Io) : Prop :=
  is_read io -> columns_high g = 1%nat.

(** The call discipline as the specification words it: between any two
    [activateColumn] calls there is a [clearAllColumns].  One iteration of
    [loop] is one sweep, so no sweep boundary lies between two calls of its
    trace. *)
Definition separated_by_clear (evs : list Event) : Prop :=
  forall pre a mid b post,
    evs = pre ++ Enter (FactivateColumn a) :: mid
              ++ Enter (FactivateColumn b) :: post ->
    Enter FclearAllColumns ∈ mid.

(** ** The cadence of the report *)

(** The clock value that was current when [Serial] last received output:
    the pair holds the latest clock reading and the reading that was the
    latest at the last output (0, the boot time, before any output). *)
Definition stamp_step (st : Z * Z) (e : Event) : Z * Z :=
  match e with
  | Call (Millis t) => (t, st.2)
  | Call (SerialPrint _) | Call (SerialPrintInt _) | Call (SerialPrintln _) =>
      (st.1, st.1)
  | _ => st
  end.

Definition last_emission (evs : list Event) : Z :=
  (foldl stamp_step (0, 0) evs).2.

(** A clock that never runs backwards, as the sketch sees it. *)
Fixpoint nondecreasing (l : list Z) : bool :=
  match l with
  | a :: (b :: _) as rest => (a <=? b) && nondecreasing rest
  | _ => true
  end.

(** Events that are neither clock readings nor serial output. *)
Definition pinwork (e : Event) : Prop :=
  match e with
  | Call (Millis _) | Call (SerialPrint _) | Call (SerialPrintInt _)
  | Call (SerialPrintln _) => False
  | _ => True
  end.

(** * Test benches *)

(** The rig as [setup] leaves it, with the given keys held. *)
Definition bench (keys : nat -> nat -> bool) (start_us cost_us : Z) : Sys Rig :=
  state (setup (boot (power_on keys start_us cost_us))).

(** A rig whose clock has just wrapped: 2^32 + 300 ms after boot, with a
    timestamp stored 900 ms before the wrap. *)
Definition wrapped_bench : Sys Rig :=
  MkSys (power_on no_keys ((2 ^ 32 + 300) * 1000) 2)
        (replicate 8 (replicate 9 0)) (2 ^ 32 - 900).

(** A rig five seconds after power-on, no key held, with old contents in the
    snapshot. *)
Definition late_bench : Sys Rig :=
  MkSys (power_on no_keys 5000000 2) (replicate 8 (replicate 9 7)) 0.

(** * Further observers *)

(** Every entry of a snapshot is 0 or 1. *)
Definition binary_matrix (m : list (list Z)) : bool :=
  forallb (forallb (fun v => (v =? 0) || (v =? 1))) m.

(** What [setup] asks of the core before it clears the columns: the serial
    port, the three output pins, the nine row pins. *)
Definition setup_config : list Io :=
  [SerialBegin 115200; PinMode datapin OUTPUT; PinMode clockpin OUTPUT;
   PinMode latchpin OUTPUT]
  ++ ((fun pin => PinMode pin INPUT_PULLDOWN) <$> rowPins).

(** A rig with every output of the register high and the clock line low. *)
Definition lit_bench : Sys Rig :=
  MkSys (MkRig true false true (replicate 8 true) (replicate 8 true) 0 2 no_keys)
        (replicate 8 (replicate 9 0)) 0.

(** Two keys held at opposite corners of the matrix. *)
Definition corner_keys : nat -> nat -> bool :=
  fun c r => key_at 0 0 c r || key_at 7 8 c r.

(** What has been prepared so far: the mode each pin was given, the baud
    rate of the serial port once begun, and whether every call so far found
    what it needs: a pin is given a mode once, written only as an output,
    read only as a pulled-down input; the port is begun once, and printed to
    only after it was begun at 115200 baud. *)
Record Prep : Type := MkPrep {
  pin_modes : gmap Z Mode;
  baud_rate : option Z;
  prep_ok : bool
}.

Definition prep_step (st : Prep) (e : Event) : Prep :=
  match e with
  | Call (SerialBegin b) =>
      MkPrep (pin_modes st) (Some b)
             (prep_ok st && bool_decide (baud_rate st = None))
  | Call (PinMode pin mode) =>
      MkPrep (<[pin := mode]> (pin_modes st)) (baud_rate st)
             (prep_ok st && bool_decide (pin_modes st !! pin = None))
  | Call (DigitalWrite pin _) =>
      MkPrep (pin_modes st) (baud_rate st)
             (prep_ok st && bool_decide (pin_modes st !! pin = Some OUTPUT))
  | Call (DigitalRead pin _) =>
      MkPrep (pin_modes st) (baud_rate st)
             (prep_ok st && bool_decide (pin_modes st !! pin = Some INPUT_PULLDOWN))
  | Call (SerialPrint _) | Call (SerialPrintInt _) | Call (SerialPrintln _) =>
      MkPrep (pin_modes st) (baud_rate st)
             (prep_ok st && bool_decide (baud_rate st = Some 115200))
  | _ => st
  end.

Definition preparation (evs : list Event) : Prep :=
  foldl prep_step (MkPrep ∅ None true) evs.

(** The pins of the sketch with the modes it uses them in. *)
Definition pin_plan : list (Z * Mode) :=
  ((fun pin => (pin, OUTPUT)) <$> [datapin; clockpin; latchpin])
  ++ ((fun pin => (pin, INPUT_PULLDOWN)) <$> rowPins).

(** The preparation once [setup] has run. *)
Definition prepared : Prep := preparation (Call <$> setup_config).

(** The numbers printed right after the text [tag]: the column labels
    follow "C", the row labels follow "R", the cells follow a blank. *)
Fixpoint ints_after (tag : string) (ios : list Io) : list Z :=
  match ios with
  | [] => []
  | SerialPrint txt :: ((SerialPrintInt v :: _) as rest) =>
      if String.eqb txt tag then v :: ints_after tag rest else ints_after tag rest
  | _ :: rest => ints_after tag rest
  end.

(** The lines of a report: the calls that end one. *)
Definition ends_line (io : Io) : bool :=
  match io with SerialPrintln _ => true | _ => false end.

Definition line_ends (ios : list Io) : list Io :=
  filter (fun io => ends_line io = true) ios.

(** The (row, column) pairs in row-major order, the order of the report. *)
Definition row_major : list (nat * nat) :=
  concat ((fun r : nat => (fun c : nat => (r, c)) <$> seq 0 8) <$> seq 0 9).

(** The clock values under which reports were printed: the latest reading
    at the first call of each burst of serial output; the flag tells whether
    output has followed the latest reading already. *)
Definition burst_step (st : Z * bool * list Z) (e : Event) : Z * bool * list Z :=
  match e with
  | Call (Millis t) => (t, false, st.2)
  | Call (SerialPrint _) | Call (SerialPrintInt _) | Call (SerialPrintln _) =>
      if st.1.2 then st else (st.1.1, true, st.2 ++ [st.1.1])
  | _ => st
  end.

Definition report_stamps (evs : list Event) : list Z :=
  (foldl burst_step (0, false, []) evs).2.

(** Consecutive values at least [d] apart. *)
Fixpoint spaced (d : Z) (l : list Z) : bool :=
  match l with
  | a :: (b :: _) as rest => (a + d <=? b) && spaced d rest
  | _ => true
  end.

(** * Proofs *)

(** ** The trace of each function *)

Section Traces.
Context {W : Type} `{Board W}.

(** The equations of [bind], for rewriting. *)
Lemma bind_trace {A B} (m : M W A) (k : A -> M W B) (s : Sys W) :
  trace (bind m k s) = trace (m s) ++ trace (k (value (m s)) (state (m s))).
Proof. reflexivity. Qed.

Lemma bind_state {A B} (m : M W A) (k : A -> M W B) (s : Sys W) :
  state (bind m k s) = state (k (value (m s)) (state (m s))).
Proof. reflexivity. Qed.

Lemma bind_value {A B} (m : M W A) (k : A -> M W B) (s : Sys W) :
  value (bind m k s) = value (k (value (m s)) (state (m s))).
Proof. reflexivity. Qed.

Lemma mask_test (val k : Z) :
  0 <= k -> negb (Z.land val (Z.shiftl 1 k) =? 0) = Z.testbit val k.
Proof.
  intros Hk.
  destruct (Z.testbit val k) eqn:Hb.
  - apply negb_true_iff, Z.eqb_neq. intros Hz.
    assert (Ht : Z.testbit (Z.land val (Z.shiftl 1 k)) k = false)
      by (rewrite Hz; apply Z.bits_0).
    rewrite Z.land_spec, Hb, Z.shiftl_1_l, Z.pow2_bits_true in Ht by lia.
    discriminate.
  - apply negb_false_iff, Z.eqb_eq, Z.bits_inj'. intros n Hn.
    rewrite Z.bits_0, Z.land_spec, Z.shiftl_1_l, Z.pow2_bits_eqb by lia.
    destruct (Z.eqb_spec k n) as [->|]; [now rewrite Hb | apply andb_false_r].
Qed.

Lemma level_of_int_of (b : bool) : level_of (int_of b) = b.
Proof. now destruct b. Qed.

Lemma shiftOut_lsb_trace (val : Z) (s : Sys W) :
  trace (shiftOut datapin clockpin LSBFIRST val s)
  = Call <$> concat (clock_bit <$> lsb_first val).
Proof.
  unfold shiftOut, for_upto, lsb_first. cbn -[Z.land Z.shiftl Z.testbit Z.of_nat].
  rewrite !level_of_int_of, !mask_test by lia. reflexivity.
Qed.

Lemma clearAllColumns_trace (s : Sys W) :
  trace (clearAllColumns s) = driver_events FclearAllColumns 0.
Proof.
  unfold clearAllColumns. cbn [bind trace value state mark].
  rewrite shiftOut_lsb_trace. unfold driver_events, bus_frame.
  rewrite !fmap_app. reflexivity.
Qed.

Lemma activateColumn_trace (colValue : Z) (s : Sys W) :
  trace (activateColumn colValue s)
  = driver_events (FactivateColumn colValue) colValue.
Proof.
  unfold activateColumn. cbn [bind trace value state mark].
  rewrite shiftOut_lsb_trace. unfold driver_events, bus_frame.
  rewrite !fmap_app. reflexivity.
Qed.

Lemma driver_keeps_globals (colValue : Z) (s : Sys W) :
  matrix (state (activateColumn colValue s)) = matrix s
  /\ lastPrintTime (state (activateColumn colValue s)) = lastPrintTime s
  /\ matrix (state (clearAllColumns s)) = matrix s
  /\ lastPrintTime (state (clearAllColumns s)) = lastPrintTime s.
Proof. repeat split. Qed.

(** ** Loop invariants *)

(** An invariant over the state and the events so far is carried through
    a [for] loop from index [i] to [i + count]. *)
Lemma for_from_inv (I : nat -> Sys W -> list Event -> Prop)
    (body : nat -> M W unit) (count : nat) :
  forall (i : nat) (s : Sys W) (evs : list Event),
    I i s evs ->
    (forall j s' evs', (i <= j < i + count)%nat -> I j s' evs' ->
       I (S j) (state (body j s')) (evs' ++ trace (body j s'))) ->
    I (i + count)%nat (state (for_from i count body s))
      (evs ++ trace (for_from i count body s)).
Proof.
  induction count as [|k IH]; intros i s evs Hi Hstep.
  - cbn. rewrite Nat.add_0_r, app_nil_r. exact Hi.
  - cbn [for_from bind state trace value].
    rewrite app_assoc, <- Nat.add_succ_comm.
    apply IH.
    + apply Hstep; [lia | exact Hi].
    + intros j s' evs' Hj. apply Hstep. lia.
Qed.

Lemma for_upto_inv (I : nat -> Sys W -> list Event -> Prop)
    (body : nat -> M W unit) (n : nat) (s : Sys W) :
  I 0%nat s [] ->
  (forall j s' evs', (j < n)%nat -> I j s' evs' ->
     I (S j) (state (body j s')) (evs' ++ trace (body j s'))) ->
  I n (state (for_upto n body s)) (trace (for_upto n body s)).
Proof.
  intros H0 Hstep.
  apply (for_from_inv I body n 0%nat s [] H0).
  intros j s' evs' Hj. apply Hstep. lia.
Qed.

(** ** The trace and the result of the sweep *)

Lemma zip_with_snoc {A B C : Type} `{Inhabited A} (f : A -> B -> C)
    (l : list A) (k : list B) (x : B) :
  (length k < length l)%nat ->
  zip_with f l (k ++ [x]) = zip_with f l k ++ [f (l !!! length k) x].
Proof.
  revert l. induction k as [|b k IH]; intros [|a l] Hlen; simpl in *; try lia.
  - now destruct l.
  - f_equal. apply IH. lia.
Qed.

Lemma matrix_shape_spec (m : list (list Z)) :
  matrix_shape m = true <->
  length m = 8%nat /\ Forall (fun col => length col = 9%nat) m.
Proof.
  unfold matrix_shape.
  rewrite andb_true_iff, Nat.eqb_eq, forallb_forall, Forall_forall.
  split; intros [Hl Hc]; (split; [exact Hl|]); intros col Hin.
  - apply Nat.eqb_eq, Hc. now apply list_elem_of_In.
  - apply Nat.eqb_eq, Hc. now apply list_elem_of_In.
Qed.

Lemma read_rows_spec (col : nat) (s0 : Sys W) :
  lastPrintTime (state (read_rows col s0)) = lastPrintTime s0 /\
  exists lv : list bool,
    length lv = 9%nat /\
    trace (read_rows col s0) = row_reads lv /\
    ((col < length (matrix s0))%nat -> length (matrix s0 !!! col) = 9%nat ->
     matrix (state (read_rows col s0)) = <[col := int_of <$> lv]> (matrix s0)).
Proof.
  pose (I := fun (i : nat) (s : Sys W) (evs : list Event) =>
    lastPrintTime s = lastPrintTime s0 /\
    exists lv : list bool,
      length lv = i /\ evs = row_reads lv /\
      ((col < length (matrix s0))%nat -> length (matrix s0 !!! col) = 9%nat ->
       matrix s = <[col := (int_of <$> lv) ++ drop i (matrix s0 !!! col)]> (matrix s0))).
  assert (HI : I 9%nat (state (read_rows col s0)) (trace (read_rows col s0))).
  { unfold read_rows. apply (for_upto_inv I).
    - split; [reflexivity|]. exists []. repeat split.
      intros Hc _. symmetry. apply list_insert_id.
      now apply list_lookup_lookup_total_lt.
    - intros j s evs Hj [Ht (lv & Hlen & Hevs & Hm)].
      split; [exact Ht|].
      exists (lv ++ [pin_level (board s) (rowPins !!! j)]).
      split; [rewrite length_app; simpl; lia|].
      split.
      + cbn [bind digitalRead write_matrix trace state value perform].
        rewrite Hevs. unfold row_reads.
        rewrite zip_with_snoc by (rewrite Hlen; simpl; lia).
        rewrite Hlen, app_nil_r. reflexivity.
      + intros Hc Hcol. specialize (Hm Hc Hcol).
        cbn [bind digitalRead write_matrix trace state value perform matrix].
        rewrite Hm, list_lookup_total_insert_eq, list_insert_insert_eq by exact Hc.
        f_equal.
        rewrite insert_app_r_alt by (rewrite length_fmap; lia).
        rewrite length_fmap, Hlen, Nat.sub_diag, fmap_app, <- app_assoc.
        f_equal.
        destruct (drop j (matrix s0 !!! col)) as [|x rest] eqn:Hd.
        * apply (f_equal length) in Hd. rewrite length_drop in Hd.
          simpl in Hd. lia.
        * simpl. f_equal.
          change (S j) with (1 + j)%nat. rewrite Nat.add_comm, <- drop_drop, Hd.
          reflexivity. }
  destruct HI as [Ht (lv & Hlen & Hevs & Hm)].
  split; [exact Ht|]. exists lv. repeat split; try assumption.
  intros Hc Hcol. rewrite (Hm Hc Hcol), drop_ge, app_nil_r by lia. reflexivity.
Qed.

Lemma scan_column_spec (col : nat) (s : Sys W) :
  lastPrintTime (state (scan_column col s)) = lastPrintTime s /\
  exists lv : list bool,
    length lv = 9%nat /\
    trace (scan_column col s) = column_events (columnSignals !!! col) lv /\
    ((col < length (matrix s))%nat -> length (matrix s !!! col) = 9%nat ->
     matrix (state (scan_column col s)) = <[col := int_of <$> lv]> (matrix s)).
Proof.
  destruct (driver_keeps_globals (columnSignals !!! col) s) as (Hm1 & Ht1 & _ & _).
  unfold scan_column.
  rewrite !bind_trace, !bind_state, activateColumn_trace.
  revert Hm1 Ht1.
  generalize (state (activateColumn (columnSignals !!! col) s)).
  intros s1 Hm1 Ht1.
  assert (Hm2 : matrix (state (delayMicroseconds settle_us s1)) = matrix s)
    by exact Hm1.
  assert (Ht2 : lastPrintTime (state (delayMicroseconds settle_us s1))
                = lastPrintTime s) by exact Ht1.
  assert (Hd : trace (delayMicroseconds settle_us s1)
               = [Call (DelayMicroseconds settle_us)]) by reflexivity.
  rewrite Hd. clear Hd.
  revert Hm2 Ht2. generalize (state (delayMicroseconds settle_us s1)).
  intros s2 Hm2 Ht2.
  destruct (read_rows_spec col s2) as [Ht (lv & Hlen & Hevs & Hm)].
  rewrite Hm2 in Hm. rewrite Ht2 in Ht.
  split; [exact Ht|]. exists lv. split; [exact Hlen|]. split.
  - rewrite Hevs. reflexivity.
  - exact Hm.
Qed.

Lemma scan_matrix_spec (s : Sys W) :
  lastPrintTime (state (scan_matrix s)) = lastPrintTime s /\
  exists tbl : list (list bool),
    table_shape tbl /\
    trace (scan_matrix s) = sweep_events tbl /\
    (matrix_shape (matrix s) = true ->
     matrix (state (scan_matrix s)) = table_of tbl).
Proof.
  pose (I := fun (c : nat) (s' : Sys W) (evs : list Event) =>
    lastPrintTime s' = lastPrintTime s /\
    exists tbl : list (list bool),
      length tbl = c /\ Forall (fun lv => length lv = 9%nat) tbl /\
      evs = sweep_events tbl /\
      (matrix_shape (matrix s) = true ->
       matrix s' = table_of tbl ++ drop c (matrix s))).
  assert (HI : I 8%nat (state (scan_matrix s)) (trace (scan_matrix s))).
  { unfold scan_matrix. apply (for_upto_inv I).
    - split; [reflexivity|]. exists []. repeat split; auto.
    - intros c s' evs Hc [Ht (tbl & Hlen & Hall & Hevs & Hm)].
      destruct (scan_column_spec c s') as [Ht' (lv & Hlv & Hcol & Hm')].
      split; [congruence|].
      exists (tbl ++ [lv]).
      split; [rewrite length_app; simpl; lia|].
      split; [apply Forall_app; split; [exact Hall | repeat constructor; exact Hlv]|].
      split.
      + rewrite Hevs, Hcol. unfold sweep_events.
        rewrite zip_with_snoc by (rewrite Hlen; simpl; lia).
        rewrite concat_app, Hlen. simpl. rewrite app_nil_r. reflexivity.
      + intros Hshape. specialize (Hm Hshape).
        apply matrix_shape_spec in Hshape as [Hl8 Hl9].
        assert (Htl : length (table_of tbl) = c)
          by (unfold table_of; rewrite length_fmap; exact Hlen).
        assert (Hd : drop c (matrix s) = (matrix s !!! c) :: drop (S c) (matrix s)).
        { apply drop_S, list_lookup_lookup_total_lt. lia. }
        rewrite Hm' ; rewrite Hm.
        * rewrite insert_app_r_alt, Htl, Nat.sub_diag, Hd by lia.
          unfold table_of. rewrite fmap_app, <- app_assoc. reflexivity.
        * rewrite length_app, Htl, length_drop. lia.
        * rewrite lookup_total_app_r, Htl, Nat.sub_diag, Hd by lia.
          simpl. rewrite Forall_forall in Hl9. apply Hl9.
          apply list_elem_of_lookup. exists c.
          apply list_lookup_lookup_total_lt. lia. }
  destruct HI as [Ht (tbl & Hlen & Hall & Hevs & Hm)].
  split; [exact Ht|]. exists tbl. repeat split; try assumption.
  intros Hshape. rewrite (Hm Hshape).
  apply matrix_shape_spec in Hshape as [Hl8 _].
  rewrite drop_ge, app_nil_r by lia. reflexivity.
Qed.

End Traces.

(** ** The trace is a faithful record of the interaction *)

Create HintDb coherent discriminated.

Section Coherence.
Context {W : Type} `{Board W}.

Lemma calls_app (a b : list Event) : calls (a ++ b) = calls a ++ calls b.
Proof. apply omap_app. Qed.

Lemma calls_Call (ios : list Io) : calls (Call <$> ios) = ios.
Proof. induction ios as [|io ios IH]; [reflexivity | simpl; f_equal; exact IH]. Qed.

Lemma replay_app (a b : list Io) (w : W) :
  replay (a ++ b) w = replay b (replay a w).
Proof. apply foldl_app. Qed.

Lemma holds_along_app (Q : W -> Io -> Prop) (a b : list Io) (w : W) :
  holds_along Q w (a ++ b) <-> holds_along Q w a /\ holds_along Q (replay a w) b.
Proof.
  revert w. induction a as [|io a IH]; intros w; simpl.
  - tauto.
  - rewrite IH. tauto.
Qed.

Lemma holds_along_at (Q : W -> Io -> Prop) (ios : list Io) (w : W) :
  holds_along Q w ios ->
  forall pre io post, ios = pre ++ io :: post -> Q (replay pre w) io.
Proof.
  intros Hall pre io post ->.
  apply holds_along_app in Hall as [_ [Hq _]]. exact Hq.
Qed.

Lemma observed_app (a b : list Io) (w : W) :
  observed w (a ++ b) <-> observed w a /\ observed (replay a w) b.
Proof. apply holds_along_app. Qed.

Lemma coherent_ret {A} (a : A) : Coherent (ret (W := W) a).
Proof. intros s. split; [reflexivity | exact I]. Qed.

Lemma coherent_bind {A B} (m : M W A) (k : A -> M W B) :
  Coherent m -> (forall a, Coherent (k a)) -> Coherent (bind m k).
Proof.
  intros Hm Hk s. rewrite bind_state, bind_trace, calls_app, replay_app.
  destruct (Hm s) as [Hb Ho].
  destruct (Hk (value (m s)) (state (m s))) as [Hb' Ho'].
  rewrite Hb in Hb', Ho'. split; [exact Hb'|].
  apply observed_app. split; assumption.
Qed.

Lemma coherent_enter (f : Fn) : Coherent (mark (Enter f)).
Proof. intros s. split; [reflexivity | exact I]. Qed.

Lemma coherent_leave (f : Fn) : Coherent (mark (Leave f)).
Proof. intros s. split; [reflexivity | exact I]. Qed.

Lemma coherent_perform (io : Io) : blind io = true -> Coherent (perform io).
Proof. intros Hio s. destruct io; try discriminate; repeat split. Qed.

Lemma coherent_digitalRead (pin : Z) : Coherent (digitalRead pin).
Proof. intros s. repeat split. Qed.

Lemma coherent_millis : Coherent millis.
Proof. intros s. repeat split. Qed.

(** A step that only touches the globals. *)
Lemma coherent_silent {A} (m : M W A) :
  (forall s, trace (m s) = [] /\ board (state (m s)) = board s) -> Coherent m.
Proof. intros Hm s. destruct (Hm s) as [-> ->]. split; [reflexivity | exact I]. Qed.

Lemma coherent_for_from (body : nat -> M W unit) (count i : nat) :
  (forall j, Coherent (body j)) -> Coherent (for_from i count body).
Proof.
  intros Hbody. revert i. induction count as [|k IH]; intros i.
  - apply coherent_ret.
  - apply coherent_bind; [apply Hbody | intros _; apply IH].
Qed.

Lemma coherent_for_upto (body : nat -> M W unit) (n : nat) :
  (forall j, Coherent (body j)) -> Coherent (for_upto n body).
Proof. apply coherent_for_from. Qed.

End Coherence.

#[export] Hint Resolve coherent_ret coherent_bind coherent_enter coherent_leave
  coherent_digitalRead coherent_millis coherent_for_upto : coherent.
#[export] Hint Extern 1 (Coherent (perform _)) =>
  apply coherent_perform; reflexivity : coherent.
#[export] Hint Extern 1 (Coherent (digitalWrite _ _)) =>
  apply coherent_perform; reflexivity : coherent.
#[export] Hint Extern 1 (Coherent (pinMode _ _)) =>
  apply coherent_perform; reflexivity : coherent.
#[export] Hint Extern 1 (Coherent (delayMicroseconds _)) =>
  apply coherent_perform; reflexivity : coherent.
#[export] Hint Extern 1 (Coherent (Serial_begin _)) =>
  apply coherent_perform; reflexivity : coherent.
#[export] Hint Extern 1 (Coherent (Serial_print _)) =>
  apply coherent_perform; reflexivity : coherent.
#[export] Hint Extern 1 (Coherent (Serial_print_int _)) =>
  apply coherent_perform; reflexivity : coherent.
#[export] Hint Extern 1 (Coherent (Serial_println _)) =>
  apply coherent_perform; reflexivity : coherent.
#[export] Hint Extern 1 (Coherent (read_matrix _ _)) =>
  apply coherent_silent; intros; split; reflexivity : coherent.
#[export] Hint Extern 1 (Coherent (write_matrix _ _ _)) =>
  apply coherent_silent; intros; split; reflexivity : coherent.
#[export] Hint Extern 1 (Coherent get_lastPrintTime) =>
  apply coherent_silent; intros; split; reflexivity : coherent.
#[export] Hint Extern 1 (Coherent (set_lastPrintTime _)) =>
  apply coherent_silent; intros; split; reflexivity : coherent.

(** Programs built from the primitives are coherent, by their structure. *)
Ltac coherence :=
  repeat (intros; cbv beta zeta;
          lazymatch goal with
          | |- Coherent (if ?b then _ else _) => destruct b
          | |- Coherent (bind _ _) => apply coherent_bind
          | |- Coherent (for_upto _ _) => apply coherent_for_upto
          | |- Coherent _ => solve [auto with coherent]
          end).

Section CoherentSketch.
Context {W : Type} `{Board W}.

Lemma coherent_shiftOut (d c : Z) (o : BitOrder) (v : Z) :
  Coherent (shiftOut d c o v).
Proof. unfold shiftOut. coherence. Qed.

Lemma coherent_clearAllColumns : Coherent clearAllColumns.
Proof. unfold clearAllColumns. pose proof coherent_shiftOut. coherence. Qed.

Lemma coherent_activateColumn (v : Z) : Coherent (activateColumn v).
Proof. unfold activateColumn. pose proof coherent_shiftOut. coherence. Qed.

Lemma coherent_scan_matrix : Coherent scan_matrix.
Proof.
  unfold scan_matrix, scan_column, read_rows.
  pose proof coherent_activateColumn. coherence.
Qed.

Lemma coherent_print_matrix : Coherent print_matrix.
Proof. unfold print_matrix. coherence. Qed.

Lemma coherent_report : Coherent report.
Proof. unfold report. pose proof coherent_print_matrix. coherence. Qed.

Lemma coherent_loop : Coherent loop.
Proof.
  unfold loop.
  pose proof coherent_scan_matrix. pose proof coherent_clearAllColumns.
  pose proof coherent_report. coherence.
Qed.

Lemma coherent_setup : Coherent setup.
Proof. unfold setup. pose proof coherent_clearAllColumns. coherence. Qed.

Lemma coherent_run (n : nat) : Coherent (run n).
Proof.
  unfold run. apply coherent_bind; [apply coherent_setup | intros _].
  induction n as [|n IH]; cbn [loops].
  - apply coherent_ret.
  - apply coherent_bind; [exact IH | intros _; apply coherent_loop].
Qed.

End CoherentSketch.

(** ** The report and the whole of [loop] *)

Section Report.
Context {W : Type} `{Board W}.

Lemma print_matrix_spec (s : Sys W) :
  trace (print_matrix s) = Call <$> print_events (matrix s)
  /\ matrix (state (print_matrix s)) = matrix s
  /\ lastPrintTime (state (print_matrix s)) = lastPrintTime s.
Proof.
  repeat split.
Qed.

Lemma report_spec (s : Sys W) :
  let now := clock s in
  let s1 := state (millis s) in
  matrix (state (report s)) = matrix s /\
  if printInterval <=? ulong_sub now (lastPrintTime s) then
    trace (report s)
    = Call (Millis now) :: Call (Millis (clock s1))
        :: (Call <$> print_events (matrix s))
    /\ lastPrintTime (state (report s)) = clock s1
  else
    trace (report s) = [Call (Millis now)]
    /\ lastPrintTime (state (report s)) = lastPrintTime s.
Proof.
  intros now s1. unfold report.
  rewrite !bind_state, !bind_trace.
  change (value (millis s)) with now.
  change (value (get_lastPrintTime (state (millis s)))) with (lastPrintTime s).
  destruct (printInterval <=? ulong_sub now (lastPrintTime s)).
  - rewrite !bind_state, !bind_trace.
    destruct (print_matrix_spec
                (state (set_lastPrintTime (value (millis s1)) (state (millis s1)))))
      as (Hp & Hm & Ht).
    change (state (get_lastPrintTime (state (millis s)))) with s1.
    rewrite Hp, Hm, Ht. repeat split.
  - repeat split.
Qed.

Lemma loop_spec (s : Sys W) :
  exists tbl : list (list bool),
    table_shape tbl
    /\ trace (loop s)
       = sweep_events tbl ++ driver_events FclearAllColumns 0
         ++ trace (report (at_gate s))
    /\ state (loop s) = state (report (at_gate s))
    /\ lastPrintTime (at_gate s) = lastPrintTime s
    /\ (matrix_shape (matrix s) = true -> matrix (at_gate s) = table_of tbl).
Proof.
  destruct (scan_matrix_spec s) as (Ht & tbl & Hshape & Hevs & Hm).
  exists tbl. split; [exact Hshape|].
  unfold loop, at_gate. rewrite !bind_trace, !bind_state, Hevs, clearAllColumns_trace.
  destruct (driver_keeps_globals 0 (state (scan_matrix s))) as (_ & _ & Hcm & Hct).
  rewrite Hcm, Hct. repeat split; assumption.
Qed.

End Report.

(** ** The simulated board *)

Section RigFacts.

Lemma lsb_first_bits (v : Z) :
  lsb_first v
  = [Z.testbit v 0; Z.testbit v 1; Z.testbit v 2; Z.testbit v 3;
     Z.testbit v 4; Z.testbit v 5; Z.testbit v 6; Z.testbit v 7].
Proof. reflexivity. Qed.

(** A frame on the bus, started with the clock line low, leaves its byte
    in the outputs, and the clock line low again. *)
Lemma rig_frame (v : Z) (g : Rig) :
  srclk g = false ->
  srclk (replay (bus_frame v) g) = false
  /\ q_out (replay (bus_frame v) g) = rev (lsb_first v)
  /\ contacts (replay (bus_frame v) g) = contacts g.
Proof.
  intros Hlow. destruct g as [d c l st q t k keys].
  cbn [srclk] in Hlow. subst c.
  unfold bus_frame. rewrite lsb_first_bits.
  generalize (Z.testbit v 0), (Z.testbit v 1), (Z.testbit v 2), (Z.testbit v 3),
    (Z.testbit v 4), (Z.testbit v 5), (Z.testbit v 6), (Z.testbit v 7).
  intros b0 b1 b2 b3 b4 b5 b6 b7. repeat split.
Qed.

Lemma holds_along_weaken (Q : Rig -> Io -> Prop) (ios : list Io) (g : Rig) :
  Forall (fun io => forall g', Q g' io) ios -> holds_along Q g ios.
Proof.
  intros Hall. revert g. induction Hall as [|io ios Hio _ IH]; intros g; simpl.
  - exact I.
  - split; [apply Hio | apply IH].
Qed.

Lemma row_levels_bits (keys : nat -> nat -> bool) (v : Z) :
  row_levels keys v
  = (fun r : nat =>
       existsb (fun '(b, c) => b && keys c r) (zip (lsb_first v) (seq 0 8)))
    <$> seq 0 9.
Proof. reflexivity. Qed.

Lemma calls_driver (f : Fn) (v : Z) : calls (driver_events f v) = bus_frame v.
Proof.
  unfold driver_events.
  change (calls (Enter f :: ?l)) with (calls l).
  rewrite calls_app, calls_Call. apply app_nil_r.
Qed.

Lemma calls_row_reads (lv : list bool) :
  calls (row_reads lv) = zip_with DigitalRead rowPins lv.
Proof.
  unfold row_reads. generalize rowPins. intros pins. revert lv.
  induction pins as [|p pins IH]; intros [|l lv]; simpl; try reflexivity.
  f_equal. apply IH.
Qed.

Lemma calls_column (v : Z) (lv : list bool) :
  calls (column_events v lv)
  = bus_frame v
    ++ DelayMicroseconds settle_us :: zip_with DigitalRead rowPins lv.
Proof.
  unfold column_events.
  rewrite !calls_app, calls_driver, calls_row_reads. reflexivity.
Qed.

(** One column of the sweep on the rig: what is read is what the keys of
    the energised column give, and every read happens with the pattern
    in the outputs. *)
Lemma rig_column (v : Z) (lv : list bool) (g : Rig) :
  srclk g = false -> length lv = 9%nat ->
  observed g (calls (column_events v lv)) ->
  lv = row_levels (contacts g) v
  /\ holds_along (fun g' io => is_read io -> q_out g' = rev (lsb_first v))
       g (calls (column_events v lv))
  /\ srclk (replay (calls (column_events v lv)) g) = false
  /\ contacts (replay (calls (column_events v lv)) g) = contacts g.
Proof.
  intros Hlow Hlen Hobs.
  rewrite calls_column in *.
  apply observed_app in Hobs as [_ Hobs].
  rewrite holds_along_app, replay_app.
  destruct (rig_frame v g Hlow) as (Hc & Hq & Hk).
  rewrite row_levels_bits, <- Hk. clear Hk.
  revert Hc Hq Hobs. generalize (replay (bus_frame v) g) as g1.
  intros [d c l st q t k keys]. cbn [srclk q_out contacts]. intros -> -> Hobs.
  rewrite lsb_first_bits in *.
  revert Hobs.
  generalize (Z.testbit v 0), (Z.testbit v 1), (Z.testbit v 2), (Z.testbit v 3),
    (Z.testbit v 4), (Z.testbit v 5), (Z.testbit v 6), (Z.testbit v 7).
  intros b0 b1 b2 b3 b4 b5 b6 b7 Hobs.
  do 10 (destruct lv as [|? lv]; try discriminate).
  cbn in Hobs. decompose [and] Hobs. subst.
  split; [reflexivity|]. split; [split|].
  - apply holds_along_weaken. unfold bus_frame. rewrite lsb_first_bits.
    repeat constructor; intros w [].
  - cbn. repeat split.
  - split; reflexivity.
Qed.

Lemma holds_along_impl (Q Q' : Rig -> Io -> Prop) (ios : list Io) (g : Rig) :
  (forall g' io, Q g' io -> Q' g' io) ->
  holds_along Q g ios -> holds_along Q' g ios.
Proof.
  intros Himp. revert g. induction ios as [|io ios IH]; intros g; simpl.
  - trivial.
  - intros [Hq Hrest]. split; [apply Himp, Hq | apply IH, Hrest].
Qed.

(** Calls other than [digitalWrite] leave the register and the keys alone. *)
Lemma rig_steady (ios : list Io) (g : Rig) :
  Forall (fun io => ~ is_write io) ios ->
  srclk (replay ios g) = srclk g
  /\ q_out (replay ios g) = q_out g
  /\ contacts (replay ios g) = contacts g.
Proof.
  intros Hall. revert g. induction Hall as [|io ios Hio _ IH]; intros g.
  - repeat split.
  - change (replay (io :: ios) g) with (replay ios (rig_react io g)).
    destruct (IH (rig_react io g)) as (-> & -> & ->).
    destruct io; try (repeat split; fail). exfalso. apply Hio. exact I.
Qed.

(** Several columns in a row, each with its own pattern. *)
Lemma rig_columns (vs : list Z) :
  forall (tbl : list (list bool)) (g : Rig),
    srclk g = false -> length tbl = length vs ->
    Forall (fun lv => length lv = 9%nat) tbl ->
    observed g (calls (concat (zip_with column_events vs tbl))) ->
    tbl = row_levels (contacts g) <$> vs
    /\ holds_along
         (fun g' io => is_read io -> exists v, v ∈ vs /\ q_out g' = rev (lsb_first v))
         g (calls (concat (zip_with column_events vs tbl)))
    /\ srclk (replay (calls (concat (zip_with column_events vs tbl))) g) = false
    /\ contacts (replay (calls (concat (zip_with column_events vs tbl))) g)
       = contacts g.
Proof.
  induction vs as [|v vs IH]; intros [|lv tbl] g Hlow Hlen Hall Hobs;
    try discriminate.
  - repeat split. exact Hlow.
  - cbn [zip_with concat] in *. rewrite calls_app in *.
    apply observed_app in Hobs as [Hobs1 Hobs2].
    inversion Hall as [|? ? Hlv Hall']; subst.
    destruct (rig_column v lv g Hlow Hlv Hobs1) as (Elv & Hreads & Hlow' & Hkeys).
    destruct (IH tbl _ Hlow' ltac:(simpl in Hlen; lia) Hall' Hobs2)
      as (Etbl & Hreads' & Hlow'' & Hkeys').
    rewrite holds_along_app, replay_app.
    split; [|split; [split|split]].
    + cbn [fmap list_fmap]. rewrite Elv at 1. rewrite Etbl at 1.
      rewrite Hkeys. reflexivity.
    + eapply holds_along_impl; [|exact Hreads].
      intros g' io Hq Hr. exists v. split; [left | apply Hq, Hr].
    + eapply holds_along_impl; [|exact Hreads'].
      intros g' io Hq Hr. destruct (Hq Hr) as (v' & Hin & Hv').
      exists v'. split; [right; exact Hin | exact Hv'].
    + exact Hlow''.
    + rewrite Hkeys'. exact Hkeys.
Qed.

End RigFacts.

(** ** One iteration of [loop] under the observers *)

Section Observers.
Context {W : Type} `{Board W}.

Lemma foldl_skip {St : Type} (step : St -> Event -> St) (P : Event -> Prop)
    (b : list Event) :
  Forall P b -> (forall st e, P e -> step st e = st) ->
  forall st : St, foldl step st b = st.
Proof.
  intros Hall Hskip. induction Hall as [|e b He _ IH]; intros st; simpl.
  - reflexivity.
  - rewrite Hskip by exact He. apply IH.
Qed.

Lemma omap_skip {B : Type} (f : Event -> option B) (P : Event -> Prop)
    (b : list Event) :
  Forall P b -> (forall e, P e -> f e = None) -> omap f b = [].
Proof.
  intros Hall Hskip. induction Hall as [|e b He _ IH]; simpl.
  - reflexivity.
  - rewrite Hskip by exact He. exact IH.
Qed.

Lemma print_events_chatter (m : list (list Z)) :
  Forall chatter (Call <$> print_events m).
Proof. repeat constructor. Qed.

Lemma report_chatter (s : Sys W) : Forall chatter (trace (report s)).
Proof.
  pose proof (report_spec s) as Hr. cbv zeta in Hr.
  destruct Hr as [_ Hr].
  destruct (printInterval <=? ulong_sub (clock s) (lastPrintTime s)).
  - destruct Hr as [-> _]. repeat constructor.
  - destruct Hr as [-> _]. repeat constructor.
Qed.

(** One iteration of [loop], as the later proofs use it: the sweep for some
    table of levels, the clear, then only chatter; the snapshot is the
    table. *)
Lemma loop_trace (s : Sys W) :
  exists (tbl : list (list bool)) (rest : list Event),
    table_shape tbl
    /\ trace (loop s)
       = (sweep_events tbl ++ driver_events FclearAllColumns 0) ++ rest
    /\ Forall chatter rest
    /\ (matrix_shape (matrix s) = true ->
        matrix (state (loop s)) = table_of tbl).
Proof.
  destruct (loop_spec s) as (tbl & Hshape & Hevs & Hst & _ & Hm).
  exists tbl, (trace (report (at_gate s))).
  split; [exact Hshape|]. split; [rewrite Hevs, app_assoc; reflexivity|].
  split; [apply report_chatter|].
  intros Hs. rewrite Hst. destruct (report_spec (at_gate s)) as [-> _].
  apply Hm, Hs.
Qed.

End Observers.

(** A table of the right shape is eight lists of nine levels. *)
Ltac explode_list l H :=
  repeat (destruct l as [|? l]; simpl in H; try discriminate H); clear H.

Ltac explode_table tbl Hshape :=
  let Hlen := fresh "Hlen" in
  let Hall := fresh "Hall" in
  destruct Hshape as [Hlen Hall];
  explode_list tbl Hlen;
  repeat match goal with
         | Hf : Forall _ (_ :: _) |- _ =>
             let Hl := fresh "Hl" in
             let Hf' := fresh "Hf" in
             apply Forall_cons in Hf as [Hl Hf']
         | Hf : Forall _ [] |- _ => clear Hf
         end;
  repeat match goal with
         | Hl : length ?lv = 9%nat |- _ => explode_list lv Hl
         end.

(** ** Claims about the driver *)

(** C5: [activateColumn] and [clearAllColumns] perform the same bus protocol:
    latch-enable low, the eight bits of the pattern least significant bit
    first on the data and clock pair, latch-enable high; [clearAllColumns]
    sends the all-zero byte.  The same is read back from the wires. *)
Theorem driver_bus_protocol {W : Type} `{Board W} (s : Sys W) (colValue : Z) :
  calls (trace (activateColumn colValue s)) = bus_frame colValue
  /\ calls (trace (clearAllColumns s)) = bus_frame 0
  /\ transmitted (trace (activateColumn colValue s)) = [lsb_first colValue]
  /\ transmitted (trace (clearAllColumns s)) = [replicate 8 false].
Proof.
  rewrite activateColumn_trace, clearAllColumns_trace, !calls_driver.
  split; [reflexivity|]. split; [reflexivity|]. split; [|reflexivity].
  unfold transmitted, driver_events, bus_frame. rewrite lsb_first_bits.
  generalize (Z.testbit colValue 0), (Z.testbit colValue 1),
    (Z.testbit colValue 2), (Z.testbit colValue 3), (Z.testbit colValue 4),
    (Z.testbit colValue 5), (Z.testbit colValue 6), (Z.testbit colValue 7).
  reflexivity.
Qed.

(** ** Claims about the sweep *)

(** C1: a full sweep reads the 72 (column, row) pairs once each, columns 0..7
    outside and rows 0..8 inside, and the snapshot holds at [column][row] the
    level that read returned. *)
Theorem sweep_covers_matrix {W : Type} `{Board W} (s : Sys W) :
  matrix_shape (matrix s) = true ->
  let smp := samples (trace (loop s)) in
  (fun x : Sample => x.1) <$> smp = wanted_sample <$> column_major
  /\ NoDup (wanted_sample <$> column_major)
  /\ length smp = 72%nat
  /\ forall c r : nat, (c < 8)%nat -> (r < 9)%nat ->
       (matrix (state (loop s)) !!! c) !!! r
       = int_of (smp !!! (9 * c + r)%nat).2.
Proof.
  intros Hs smp. subst smp.
  destruct (loop_trace s) as (tbl & rest & Hshape & Hevs & Hrest & Hm).
  rewrite (Hm Hs), Hevs. clear Hm Hevs Hs. unfold samples.
  rewrite foldl_app, (foldl_skip sampler chatter rest Hrest) by
    (intros st [[]| |]; simpl; tauto).
  explode_table tbl Hshape.
  split; [reflexivity|]. split; [|split; [reflexivity|]].
  - apply (bool_decide_unpack _). vm_compute. exact I.
  - intros c r Hc Hr.
    do 8 (destruct c as [|c]; [do 9 (destruct r as [|r]; [reflexivity|]); lia|]).
    lia.
Qed.

Lemma driver_call_order {W : Type} `{Board W} (s : Sys W) :
  driver_calls (trace (loop s))
  = (FactivateColumn <$> columnSignals) ++ [FclearAllColumns].
Proof.
  destruct (loop_trace s) as (tbl & rest & Hshape & Hevs & Hrest & _).
  rewrite Hevs. unfold driver_calls. rewrite omap_app.
  rewrite (omap_skip _ chatter rest Hrest) by (intros [[]| |]; simpl; tauto).
  explode_table tbl Hshape. reflexivity.
Qed.

(** C2: the eight column patterns are the powers of two in ascending order,
    each with bit [c] alone set, and the byte that goes over the bus while
    column [c] is scanned is exactly that pattern. *)
Theorem column_patterns_one_hot {W : Type} `{Board W} (s : Sys W) :
  columnSignals = (fun c : nat => 2 ^ Z.of_nat c) <$> seq 0 8
  /\ (forall c : nat, (c < 8)%nat ->
        lsb_first (columnSignals !!! c) = one_hot c
        /\ 0 <= columnSignals !!! c < 256)
  /\ driver_calls (trace (loop s))
     = (FactivateColumn <$> columnSignals) ++ [FclearAllColumns]
  /\ (forall c : nat, (c < 8)%nat ->
        transmitted (trace (loop s)) !! c = Some (one_hot c)).
Proof.
  split; [reflexivity|]. split.
  { intros c Hc.
    do 8 (destruct c as [|c]; [split; [reflexivity | simpl; lia]|]). lia. }
  destruct (loop_trace s) as (tbl & rest & Hshape & Hevs & Hrest & _).
  rewrite Hevs. clear Hevs. unfold transmitted, driver_calls.
  rewrite omap_app, foldl_app.
  rewrite (omap_skip _ chatter rest Hrest) by (intros [[]| |]; simpl; tauto).
  rewrite (foldl_skip wire_step chatter rest Hrest) by
    (intros st [[]| |]; simpl; tauto).
  explode_table tbl Hshape.
  split; [reflexivity|].
  intros c Hc. do 8 (destruct c as [|c]; [reflexivity|]). lia.
Qed.

(** C8: in every column iteration the settle delay comes after the return
    of [activateColumn] and before the first read of that column; it is 30
    microseconds each time; no read happens without it. *)
Theorem settle_before_sampling {W : Type} `{Board W} (s : Sys W) :
  reads_settled (trace (loop s)) = true
  /\ delays (trace (loop s)) = replicate 8 settle_us
  /\ tens_of_us settle_us = true
  /\ (forall n : nat, reads_settled (trace (loops n s)) = true)
  /\ exists (tbl : list (list bool)) (rest : list Event),
       table_shape tbl /\ Forall chatter rest
       /\ trace (loop s)
          = concat (zip_with
                      (fun v lv =>
                         driver_events (FactivateColumn v) v
                         ++ [Call (DelayMicroseconds settle_us)]
                         ++ row_reads lv)
                      columnSignals tbl)
            ++ driver_events FclearAllColumns 0 ++ rest.
Proof.
  assert (Hkeep : forall (s' : Sys W) (st : Phase * bool),
             (foldl settle_step st (trace (loop s'))).2 = st.2).
  { intros s' st.
    destruct (loop_trace s') as (tbl & rest & Hshape & Hevs & Hrest & _).
    rewrite Hevs, foldl_app.
    rewrite (foldl_skip settle_step chatter rest Hrest) by
      (intros st' [[]| |]; simpl; tauto).
    explode_table tbl Hshape. destruct st as [ph ok]. reflexivity. }
  split; [apply (Hkeep s (Undriven, true))|].
  split.
  { destruct (loop_trace s) as (tbl & rest & Hshape & Hevs & Hrest & _).
    rewrite Hevs. unfold delays. rewrite omap_app.
    rewrite (omap_skip _ chatter rest Hrest) by
      (intros [[]| |]; simpl; tauto).
    explode_table tbl Hshape. reflexivity. }
  split; [reflexivity|].
  split.
  { intros n.
    assert (Hn : forall (s0 : Sys W) (st : Phase * bool),
               (foldl settle_step st (trace (loops n s0))).2 = st.2).
    { induction n as [|n IH]; intros s0 st.
      - reflexivity.
      - cbn [loops]. rewrite bind_trace, foldl_app, Hkeep. apply IH. }
    apply (Hn s (Undriven, true)). }
  destruct (loop_trace s) as (tbl & rest & Hshape & Hevs & Hrest & _).
  exists tbl, rest. split; [exact Hshape|]. split; [exact Hrest|].
  rewrite Hevs, <- app_assoc. reflexivity.
Qed.

(** C10: the report never writes the snapshot.  Two iterations of [loop]
    that read the same levels from the row pins end with the same snapshot,
    whatever their boards, their clocks or their stored timestamps are, and
    whether or not each of them printed. *)
Theorem report_leaves_snapshot {W1 W2 : Type} `{Board W1} `{Board W2}
    (s1 : Sys W1) (s2 : Sys W2) :
  matrix_shape (matrix s1) = true ->
  matrix_shape (matrix s2) = true ->
  (fun x : Sample => x.2) <$> samples (trace (loop s1))
  = (fun x : Sample => x.2) <$> samples (trace (loop s2)) ->
  matrix (state (loop s1)) = matrix (state (loop s2))
  /\ matrix (state (report s1)) = matrix s1
  /\ matrix (state (report s2)) = matrix s2.
Proof.
  intros Hs1 Hs2 Hsame.
  split; [|split; apply report_spec].
  destruct (loop_trace s1) as (tbl1 & rest1 & Hshape1 & Hevs1 & Hrest1 & Hm1).
  destruct (loop_trace s2) as (tbl2 & rest2 & Hshape2 & Hevs2 & Hrest2 & Hm2).
  rewrite (Hm1 Hs1), (Hm2 Hs2). clear Hm1 Hm2 Hs1 Hs2.
  rewrite Hevs1, Hevs2 in Hsame. clear Hevs1 Hevs2. unfold samples in Hsame.
  rewrite !foldl_app in Hsame.
  rewrite (foldl_skip sampler chatter rest1 Hrest1) in Hsame by
    (intros st [[]| |]; simpl; tauto).
  rewrite (foldl_skip sampler chatter rest2 Hrest2) in Hsame by
    (intros st [[]| |]; simpl; tauto).
  explode_table tbl1 Hshape1. explode_table tbl2 Hshape2.
  vm_compute in Hsame. simplify_eq. reflexivity.
Qed.

(** ** The sketch on the simulated board *)

Section RigLoop.

Lemma chatter_calls (rest : list Event) :
  Forall chatter rest ->
  Forall (fun io => ~ is_write io) (calls rest)
  /\ Forall (fun io => forall g : Rig, is_read io ->
               exists v, v ∈ columnSignals /\ q_out g = rev (lsb_first v))
       (calls rest).
Proof.
  intros Hall. induction Hall as [|e rest He _ [IH1 IH2]].
  - split; constructor.
  - destruct e as [[]| |]; try (exfalso; exact He);
      (split; (constructor; [simpl; first [tauto | intros g []] | assumption])).
Qed.

(** While a column is scanned, exactly its line is high. *)
Ltac only_line c :=
  exists c; repeat split; [lia|];
  let c' := fresh "c" in
  let Hc := fresh "Hc" in
  intros c' Hc; do 8 (destruct c' as [|c']; [reflexivity|]); lia.

Lemma pattern_one_line (g : Rig) (v : Z) :
  v ∈ columnSignals -> q_out g = rev (lsb_first v) ->
  columns_high g = 1%nat /\
  exists c : nat, (c < 8)%nat /\ v = columnSignals !!! c
                  /\ forall c' : nat, (c' < 8)%nat ->
                       column_line g c' = bool_decide (c' = c).
Proof.
  intros Hin Hq. unfold columns_high, column_line. rewrite Hq. clear Hq.
  unfold columnSignals in Hin. rewrite !elem_of_cons, elem_of_nil in Hin.
  destruct Hin as [->|[->|[->|[->|[->|[->|[->|[->|[]]]]]]]]];
    (split; [reflexivity|]).
  - only_line 0%nat.
  - only_line 1%nat.
  - only_line 2%nat.
  - only_line 3%nat.
  - only_line 4%nat.
  - only_line 5%nat.
  - only_line 6%nat.
  - only_line 7%nat.
Qed.

Lemma rig_loop (s : Sys Rig) :
  srclk (board s) = false ->
  exists rest : list Event,
    let tbl := row_levels (contacts (board s)) <$> columnSignals in
    let body := sweep_events tbl ++ driver_events FclearAllColumns 0 in
    trace (loop s) = body ++ rest
    /\ Forall chatter rest
    /\ (matrix_shape (matrix s) = true ->
        matrix (state (loop s)) = table_of tbl)
    /\ holds_along
         (fun g io => is_read io ->
            exists v, v ∈ columnSignals /\ q_out g = rev (lsb_first v))
         (board s) (calls (trace (loop s)))
    /\ srclk (replay (calls body) (board s)) = false
    /\ q_out (replay (calls body) (board s)) = replicate 8 false
    /\ contacts (replay (calls body) (board s)) = contacts (board s)
    /\ board (state (loop s)) = replay (calls rest) (replay (calls body) (board s)).
Proof.
  intros Hlow.
  destruct (loop_trace s) as (tbl & rest & Hshape & Hevs & Hrest & Hm).
  destruct (coherent_loop s) as [Hb Hobs].
  rewrite Hevs in Hb, Hobs. rewrite Hevs. clear Hevs.
  rewrite !calls_app, !replay_app in Hb.
  rewrite !calls_app in Hobs.
  apply observed_app in Hobs as [Hobs _].
  apply observed_app in Hobs as [Hobs _].
  destruct Hshape as [Hlen Hall].
  destruct (rig_columns columnSignals tbl (board s) Hlow Hlen Hall Hobs)
    as (-> & Hreads & Hlow' & Hkeys).
  fold (sweep_events (row_levels (contacts (board s)) <$> columnSignals))
    in Hreads, Hlow', Hkeys, Hb.
  set (tbl := row_levels (contacts (board s)) <$> columnSignals) in *.
  destruct (rig_frame 0 _ Hlow') as (Hlow'' & Hq & Hkeys').
  rewrite <- (calls_driver FclearAllColumns 0) in Hlow'', Hq, Hkeys'.
  destruct (chatter_calls rest Hrest) as [Hquiet Hnoreads].
  exists rest. cbv zeta.
  split; [reflexivity|]. split; [exact Hrest|]. split; [exact Hm|].
  rewrite !calls_app, !replay_app.
  split; [|split; [exact Hlow''|split; [exact Hq|split; [|exact Hb]]]].
  - rewrite !holds_along_app. split; [split|].
    + exact Hreads.
    + rewrite calls_driver. apply holds_along_weaken.
      repeat constructor; intros g [].
    + apply holds_along_weaken. exact Hnoreads.
  - rewrite Hkeys'. exact Hkeys.
Qed.

End RigLoop.

Section RigClaims.

Lemma table_entry (keys : nat -> nat -> bool) (c r : nat) :
  (c < 8)%nat -> (r < 9)%nat ->
  (table_of (row_levels keys <$> columnSignals) !!! c) !!! r = int_of (keys c r).
Proof.
  intros Hc Hr.
  do 8 (destruct c as [|c];
        [do 9 (destruct r as [|r];
               [vm_compute; destruct (keys _ _); reflexivity|]); lia|]).
  lia.
Qed.

(** After a sweep the snapshot shows, at every position, whether that
    contact is closed. *)
Lemma rig_snapshot (s : Sys Rig) (c r : nat) :
  srclk (board s) = false -> matrix_shape (matrix s) = true ->
  (c < 8)%nat -> (r < 9)%nat ->
  (matrix (state (loop s)) !!! c) !!! r = int_of (contacts (board s) c r).
Proof.
  intros Hlow Hs Hc Hr.
  destruct (rig_loop s Hlow) as (rest & _ & _ & Hm & _).
  rewrite (Hm Hs). apply table_entry; assumption.
Qed.

End RigClaims.

(** C3: with the single contact between column 3 and row 5 closed, a sweep
    leaves 1 at [matrix[3][5]] and 0 at the other 71 positions, whatever the
    snapshot held before. *)
Theorem single_contact_snapshot (s : Sys Rig) :
  srclk (board s) = false ->
  matrix_shape (matrix s) = true ->
  (forall c r : nat, (c < 8)%nat -> (r < 9)%nat ->
     contacts (board s) c r = bool_decide (c = 3%nat /\ r = 5%nat)) ->
  forall c r : nat, (c < 8)%nat -> (r < 9)%nat ->
    (matrix (state (loop s)) !!! c) !!! r
    = if bool_decide (c = 3%nat /\ r = 5%nat) then 1 else 0.
Proof.
  intros Hlow Hs Hkeys c r Hc Hr.
  rewrite rig_snapshot, Hkeys by assumption.
  destruct (bool_decide _); reflexivity.
Qed.

Lemma single_contact_snapshot_witness :
  let s := bench (key_at 3 5) 0 2 in
  srclk (board s) = false
  /\ matrix_shape (matrix s) = true
  /\ (matrix (state (loop s)) !!! 3%nat) !!! 5%nat = 1
  /\ (matrix (state (loop s)) !!! 5%nat) !!! 3%nat = 0.
Proof.
  assert (Hk : forall c r : nat, (c < 8)%nat -> (r < 9)%nat ->
             contacts (board (bench (key_at 3 5) 0 2)) c r
             = bool_decide (c = 3%nat /\ r = 5%nat)).
  { intros c r Hc Hr.
    do 8 (destruct c as [|c];
          [do 9 (destruct r as [|r]; [reflexivity|]); lia|]).
    lia. }
  split; [reflexivity|]. split; [reflexivity|]. split.
  - apply (single_contact_snapshot (bench (key_at 3 5) 0 2) eq_refl eq_refl Hk
             3%nat 5%nat); lia.
  - apply (single_contact_snapshot (bench (key_at 3 5) 0 2) eq_refl eq_refl Hk
             5%nat 3%nat); lia.
Defined.

Section RigSweeps.

Lemma rig_loop_reads (s : Sys Rig) :
  srclk (board s) = false ->
  holds_along one_line_high (board s) (calls (trace (loop s)))
  /\ srclk (board (state (loop s))) = false.
Proof.
  intros Hlow.
  destruct (rig_loop s Hlow)
    as (rest & _ & Hrest & _ & Hreads & Hlow' & _ & _ & Hb).
  split.
  - eapply holds_along_impl; [|exact Hreads].
    intros g io Hq Hr. destruct (Hq Hr) as (v & Hin & Hv).
    apply (pattern_one_line g v Hin Hv).
  - rewrite Hb.
    destruct (chatter_calls rest Hrest) as [Hquiet _].
    etransitivity; [exact (proj1 (rig_steady _ _ Hquiet)) | exact Hlow'].
Qed.

Lemma coherent_loops (n : nat) : Coherent (W := Rig) (loops n).
Proof.
  induction n as [|n IH]; cbn [loops].
  - apply coherent_ret.
  - apply coherent_bind; [exact IH | intros _; apply coherent_loop].
Qed.

Lemma rig_loops_reads (n : nat) (s : Sys Rig) :
  srclk (board s) = false ->
  holds_along one_line_high (board s) (calls (trace (loops n s)))
  /\ srclk (board (state (loops n s))) = false.
Proof.
  intros Hlow. induction n as [|n [IHr IHl]]; cbn [loops].
  - split; [exact I | exact Hlow].
  - rewrite bind_trace, bind_state, calls_app, holds_along_app.
    destruct (coherent_loops n s) as [<- _].
    destruct (rig_loop_reads (state (loops n s)) IHl) as [Hr Hl].
    split; [split; [exact IHr | exact Hr] | exact Hl].
Qed.

(** [setup] on a board just powered on leaves the sketch ready for a sweep,
    and every iteration of [loop] leaves it ready for the next. *)
Lemma bench_ready (keys : nat -> nat -> bool) (start_us cost_us : Z) :
  ready (bench keys start_us cost_us).
Proof. split; reflexivity. Qed.

Lemma loop_ready (s : Sys Rig) : ready s -> ready (state (loop s)).
Proof.
  intros [Hlow Hs]. split; [apply rig_loop_reads, Hlow|].
  destruct (loop_trace s) as (tbl & rest & Hshape & _ & _ & Hm).
  rewrite (Hm Hs). explode_table tbl Hshape. reflexivity.
Qed.

Lemma loops_ready (n : nat) (s : Sys Rig) : ready s -> ready (state (loops n s)).
Proof.
  intros Hr. induction n as [|n IH]; [exact Hr|].
  cbn [loops]. rewrite bind_state. apply loop_ready, IH.
Qed.

End RigSweeps.

(** C4, as the code has it: at every sampling instant of every sweep exactly
    one column line is high, hence at most one.  Within a sweep the eight
    [activateColumn] calls follow one another with no [clearAllColumns]
    between them; the one [clearAllColumns] comes last, and no driver call
    is entered before the previous one has returned. *)
Theorem one_column_at_a_time (s : Sys Rig) (n : nat) :
  srclk (board s) = false ->
  (forall pre pin level post,
     calls (trace (loops n s)) = pre ++ DigitalRead pin level :: post ->
     columns_high (replay pre (board s)) = 1%nat)
  /\ driver_calls (trace (loop s))
     = (FactivateColumn <$> columnSignals) ++ [FclearAllColumns]
  /\ bracketed (trace (loop s)) = true
  /\ srclk (board (state (loop s))) = false.
Proof.
  intros Hlow. split; [|split; [|split]].
  - intros pre pin level post Heq.
    destruct (rig_loops_reads n s Hlow) as [Hall _].
    apply (holds_along_at _ _ _ Hall pre _ post Heq). exact I.
  - apply (driver_call_order s).
  - destruct (loop_trace s) as (tbl & rest & Hshape & Hevs & Hrest & _).
    rewrite Hevs. unfold bracketed. rewrite foldl_app.
    rewrite (foldl_skip bracket_step chatter rest Hrest) by
      (intros st [[]| |]; simpl; tauto).
    explode_table tbl Hshape. reflexivity.
  - apply rig_loop_reads, Hlow.
Qed.

Lemma one_column_at_a_time_witness :
  let s := bench (key_at 0 0) 0 2 in
  srclk (board s) = false
  /\ (forall pre pin level post,
        calls (trace (loops 2 s)) = pre ++ DigitalRead pin level :: post ->
        columns_high (replay pre (board s)) = 1%nat)
  /\ bracketed (trace (loop s)) = true.
Proof.
  pose proof (one_column_at_a_time (bench (key_at 0 0) 0 2) 2 eq_refl)
    as (Hreads & _ & Hbr & _).
  split; [reflexivity|]. split; [exact Hreads | exact Hbr].
Defined.

(** The first two activations of a sweep have no clear between them. *)
Lemma activations_back_to_back :
  ~ ((forall pre pin level post,
        calls (trace (loop (bench no_keys 0 2))) = pre ++ DigitalRead pin level :: post ->
        (columns_high (replay pre (board (bench no_keys 0 2))) <= 1)%nat)
     /\ separated_by_clear (trace (loop (bench no_keys 0 2)))).
Proof.
  intros [_ Hsep].
  specialize (Hsep [] 1 (take 37 (drop 1 (trace (loop (bench no_keys 0 2)))))
                2 (drop 39 (trace (loop (bench no_keys 0 2))))).
  assert (Hin : Enter FclearAllColumns
                ∈ take 37 (drop 1 (trace (loop (bench no_keys 0 2))))).
  { apply Hsep. vm_compute. reflexivity. }
  revert Hin. apply (bool_decide_unpack _). vm_compute. exact I.
Qed.

Section ClearLast.

(** The sweep and the clear end with the return of [clearAllColumns], and
    that event occurs nowhere before. *)
Lemma body_ends_with_clear (tbl : list (list bool)) :
  table_shape tbl ->
  exists front : list Event,
    sweep_events tbl ++ driver_events FclearAllColumns 0
    = front ++ [Leave FclearAllColumns]
    /\ Leave FclearAllColumns ∉ front.
Proof.
  intros Hshape.
  exists (sweep_events tbl ++ Enter FclearAllColumns :: (Call <$> bus_frame 0)).
  split.
  - unfold driver_events. rewrite <- !app_assoc. reflexivity.
  - explode_table tbl Hshape.
    apply (bool_decide_unpack _). vm_compute. exact I.
Qed.

Lemma rig_idle_after_clear (r : Sys Rig) (pre post : list Event) :
  srclk (board r) = false ->
  trace (loop r) = pre ++ post ->
  Leave FclearAllColumns ∈ pre ->
  columns_high (replay (calls pre) (board r)) = 0%nat.
Proof.
  intros Hlow Hsplit Hin.
  destruct (rig_loop r Hlow) as (rest & Hevs & Hrest & _ & _ & _ & Hq & _).
  cbv zeta in Hevs, Hq.
  set (tbl := row_levels (contacts (board r)) <$> columnSignals) in *.
  assert (Hshape : table_shape tbl).
  { split; [reflexivity|]. repeat constructor. }
  destruct (body_ends_with_clear tbl Hshape) as (front & Hbody & Hfresh).
  assert (Hpre : exists k, pre = (front ++ [Leave FclearAllColumns]) ++ k
                           /\ rest = k ++ post).
  { rewrite Hevs, Hbody, <- app_assoc in Hsplit.
    symmetry in Hsplit.
    apply app_eq_inv in Hsplit as [(k & -> & Hk)|(k & -> & Hk)].
    - destruct k as [|e k].
      + exfalso. apply Hfresh. rewrite app_nil_r in Hin. exact Hin.
      + simpl in Hk. injection Hk as <- ->.
        exists k. split; [rewrite <- app_assoc; reflexivity | reflexivity].
    - exfalso. apply Hfresh. apply elem_of_app. left. exact Hin. }
  destruct Hpre as (k & -> & ->).
  rewrite <- Hbody, calls_app, replay_app.
  apply Forall_app in Hrest as [Hk _].
  destruct (chatter_calls k Hk) as [Hquiet _].
  unfold columns_high, column_line.
  rewrite (proj1 (proj2 (rig_steady _ _ Hquiet))), Hq. reflexivity.
Qed.

End ClearLast.

(** C6: in every sweep [clearAllColumns] is called once, after the eight
    columns have been scanned and as the last thing that touches the pins;
    on the rig, from its return to the end of the iteration no column line
    is high. *)
Theorem clear_once_after_scan {W : Type} `{Board W} (s : Sys W) (r : Sys Rig) :
  srclk (board r) = false ->
  driver_calls (trace (loop s))
  = (FactivateColumn <$> columnSignals) ++ [FclearAllColumns]
  /\ (exists (tbl : list (list bool)) (rest : list Event),
        table_shape tbl /\ Forall chatter rest
        /\ trace (loop s)
           = sweep_events tbl ++ driver_events FclearAllColumns 0 ++ rest
        /\ length (samples (sweep_events tbl)) = 72%nat)
  /\ (forall pre post : list Event,
        trace (loop r) = pre ++ post ->
        Leave FclearAllColumns ∈ pre ->
        columns_high (replay (calls pre) (board r)) = 0%nat).
Proof.
  intros Hlow. split; [apply driver_call_order|]. split.
  - destruct (loop_trace s) as (tbl & rest & Hshape & Hevs & Hrest & _).
    exists tbl, rest. split; [exact Hshape|]. split; [exact Hrest|].
    split; [rewrite Hevs, <- app_assoc; reflexivity|].
    explode_table tbl Hshape. reflexivity.
  - intros pre post Hsplit Hin. exact (rig_idle_after_clear r pre post Hlow Hsplit Hin).
Qed.

Lemma clear_once_after_scan_witness :
  let r := bench (key_at 7 8) 0 2 in
  srclk (board r) = false
  /\ columns_high (board (state (loop r))) = 0%nat.
Proof.
  split; [reflexivity|].
  pose proof (clear_once_after_scan (bench (key_at 7 8) 0 2)
                (bench (key_at 7 8) 0 2) eq_refl) as (_ & _ & Hidle).
  destruct (coherent_loop (bench (key_at 7 8) 0 2)) as [Hb _].
  cbv zeta. rewrite Hb.
  apply (Hidle (trace (loop (bench (key_at 7 8) 0 2))) []).
  - symmetry. apply app_nil_r.
  - apply (bool_decide_unpack _). vm_compute. exact I.
Defined.

(** ** Claims about the cadence of the report *)

Section Cadence.
Context {W : Type} `{Board W}.

Lemma ulong_sub_exact (now last : Z) :
  0 <= now - last < ulong_modulus -> ulong_sub now last = now - last.
Proof. intros Hr. unfold ulong_sub. apply Z.mod_small. exact Hr. Qed.

Lemma ulong_sub_wrapped (t_now t_last : Z) :
  0 <= t_now - t_last < ulong_modulus ->
  ulong_sub (t_now mod ulong_modulus) (t_last mod ulong_modulus)
  = t_now - t_last.
Proof.
  intros Hr. unfold ulong_sub.
  rewrite <- Zminus_mod. apply Z.mod_small. exact Hr.
Qed.

Lemma clock_range (s : Sys W) : 0 <= clock s < ulong_modulus.
Proof. unfold clock. apply Z.mod_pos_bound. reflexivity. Qed.

Lemma nondecreasing_tail (b : Z) (l : list Z) :
  nondecreasing (b :: l) = true -> nondecreasing l = true.
Proof.
  destruct l as [|c l]; [reflexivity|].
  intros Hnd. change (((b <=? c) && nondecreasing (c :: l)) = true) in Hnd.
  apply andb_true_iff in Hnd. apply Hnd.
Qed.

Lemma nondecreasing_head (l : list Z) :
  forall b y : Z, nondecreasing (b :: l) = true -> y ∈ l -> b <= y.
Proof.
  induction l as [|c l IH]; intros b y Hnd Hin.
  - apply elem_of_nil in Hin. contradiction.
  - change (((b <=? c) && nondecreasing (c :: l)) = true) in Hnd.
    apply andb_true_iff in Hnd as [Hle Hnd].
    apply elem_of_cons in Hin as [->|Hin]; [lia|].
    specialize (IH c y Hnd Hin). lia.
Qed.

Lemma nondecreasing_app_le (l1 l2 : list Z) (a x : Z) :
  nondecreasing (l1 ++ x :: l2) = true -> a ∈ l1 -> a <= x.
Proof.
  induction l1 as [|b l1 IH]; intros Hnd Hin.
  - apply elem_of_nil in Hin. contradiction.
  - apply elem_of_cons in Hin as [->|Hin].
    + apply (nondecreasing_head (l1 ++ x :: l2)); [exact Hnd|].
      apply elem_of_app. right. left.
    + apply IH; [|exact Hin]. apply (nondecreasing_tail b). exact Hnd.
Qed.

Lemma sweep_pinwork (tbl : list (list bool)) :
  table_shape tbl ->
  Forall pinwork (sweep_events tbl ++ driver_events FclearAllColumns 0).
Proof. intros Hshape. explode_table tbl Hshape. repeat constructor. Qed.

(** One iteration of [loop], seen from the gate. *)
Lemma loop_gate (s : Sys W) :
  let g := at_gate s in
  exists front : list Event,
    Forall pinwork front /\
    if printInterval <=? ulong_sub (clock g) (lastPrintTime s) then
      trace (loop s)
      = front ++ Call (Millis (clock g)) :: Call (Millis (clock (state (millis g))))
              :: (Call <$> print_events (matrix g))
      /\ lastPrintTime (state (loop s)) = clock (state (millis g))
    else
      trace (loop s) = front ++ [Call (Millis (clock g))]
      /\ lastPrintTime (state (loop s)) = lastPrintTime s.
Proof.
  intros g.
  destruct (loop_spec s) as (tbl & Hshape & Hevs & Hst & Ht & _).
  exists (sweep_events tbl ++ driver_events FclearAllColumns 0).
  split; [apply sweep_pinwork, Hshape|].
  pose proof (report_spec g) as Hr. cbv zeta in Hr. destruct Hr as [_ Hr].
  fold g in Hevs, Hst, Ht. rewrite Ht in Hr.
  rewrite Hevs, Hst, app_assoc.
  destruct (printInterval <=? ulong_sub (clock g) (lastPrintTime s));
    destruct Hr as [-> ->]; split; reflexivity.
Qed.

Lemma pinwork_silent (front : list Event) :
  Forall pinwork front ->
  serial_output front = [] /\ clock_readings front = []
  /\ forall st, foldl stamp_step st front = st.
Proof.
  intros Hall. split; [|split].
  - induction Hall as [|e front He _ IH]; [reflexivity|].
    destruct e as [[]| |]; try (exfalso; exact He); exact IH.
  - induction Hall as [|e front He _ IH]; [reflexivity|].
    destruct e as [[]| |]; try (exfalso; exact He); exact IH.
  - apply (foldl_skip stamp_step pinwork front Hall).
    intros st [[]| |]; simpl; tauto.
Qed.

Lemma serial_output_app (a b : list Event) :
  serial_output (a ++ b) = serial_output a ++ serial_output b.
Proof. unfold serial_output. rewrite calls_app. apply filter_app. Qed.

Lemma clock_readings_app (a b : list Event) :
  clock_readings (a ++ b) = clock_readings a ++ clock_readings b.
Proof. unfold clock_readings. rewrite calls_app. apply omap_app. Qed.

(** What one iteration shows of its gate: the clock readings, whether
    anything was printed, the stored timestamp, the emission stamp. *)
Lemma loop_cadence (s : Sys W) :
  let now := clock (at_gate s) in
  let t := clock (state (millis (at_gate s))) in
  if printInterval <=? ulong_sub now (lastPrintTime s) then
    clock_readings (trace (loop s)) = [now; t]
    /\ serial_output (trace (loop s)) <> []
    /\ lastPrintTime (state (loop s)) = t
    /\ forall st, foldl stamp_step st (trace (loop s)) = (t, t)
  else
    clock_readings (trace (loop s)) = [now]
    /\ serial_output (trace (loop s)) = []
    /\ lastPrintTime (state (loop s)) = lastPrintTime s
    /\ forall st, foldl stamp_step st (trace (loop s)) = (now, st.2).
Proof.
  intros now t.
  pose proof (loop_gate s) as Hg. cbv zeta in Hg.
  destruct Hg as (front & Hfront & Hg).
  destruct (pinwork_silent front Hfront) as (Hso & Hcr & Hfold).
  fold now in Hg. fold t in Hg.
  destruct (printInterval <=? ulong_sub now (lastPrintTime s));
    destruct Hg as [Hevs Hlast]; rewrite Hevs, Hlast;
    rewrite clock_readings_app, serial_output_app, Hso, Hcr.
  - split; [reflexivity|]. split; [discriminate|]. split; [reflexivity|].
    intros st. rewrite foldl_app, Hfold. reflexivity.
  - split; [reflexivity|]. split; [reflexivity|]. split; [reflexivity|].
    intros st. rewrite foldl_app, Hfold. reflexivity.
Qed.

Lemma setup_pinwork (s : Sys W) :
  Forall pinwork (trace (setup s))
  /\ lastPrintTime (state (setup s)) = lastPrintTime s.
Proof.
  split; [|reflexivity].
  unfold setup. rewrite !bind_trace, clearAllColumns_trace.
  repeat (apply Forall_app; split); repeat constructor.
Qed.

(** Through any number of iterations the stored timestamp is the emission
    stamp of the trace, and it is a past clock reading unless it still is
    the initial value. *)
Lemma loops_stamp (n : nat) (s : Sys W) (st : Z * Z) :
  st.2 = lastPrintTime s ->
  (foldl stamp_step st (trace (loops n s))).2 = lastPrintTime (state (loops n s))
  /\ (lastPrintTime (state (loops n s)) = lastPrintTime s
      \/ lastPrintTime (state (loops n s)) ∈ clock_readings (trace (loops n s))).
Proof.
  intros Hst. induction n as [|n [IHf IHm]]; cbn [loops].
  - split; [exact Hst | left; reflexivity].
  - rewrite bind_trace, bind_state, foldl_app, clock_readings_app.
    pose proof (loop_cadence (state (loops n s))) as Hc. cbv zeta in Hc.
    destruct (printInterval <=? _);
      destruct Hc as (Hcr & _ & Hlast & Hfold); rewrite Hfold, Hlast, Hcr.
    + split; [reflexivity|]. right. apply elem_of_app. right. right. left.
    + split; [exact IHf|].
      destruct IHm as [IHm|IHm]; [left; exact IHm|].
      right. apply elem_of_app. left. exact IHm.
Qed.

Lemma run_stamp (n : nat) (w0 : W) :
  last_emission (trace (run n (boot w0))) = lastPrintTime (state (run n (boot w0)))
  /\ (lastPrintTime (state (run n (boot w0))) = 0
      \/ lastPrintTime (state (run n (boot w0)))
         ∈ clock_readings (trace (run n (boot w0)))).
Proof.
  unfold run, last_emission.
  rewrite bind_trace, bind_state, foldl_app, clock_readings_app.
  destruct (setup_pinwork (boot w0)) as [Hpw Hlast].
  destruct (pinwork_silent _ Hpw) as (_ & Hcr & Hfold).
  rewrite Hfold, Hcr.
  destruct (loops_stamp n (state (setup (boot w0))) (0, 0)) as [Hf Hm].
  { rewrite Hlast. reflexivity. }
  split; [exact Hf|]. rewrite Hlast in Hm. exact Hm.
Qed.

End Cadence.

Section CadenceStep.
Context {W : Type} `{Board W}.

(** Clock readings are values of an [unsigned long]. *)
Lemma readings_nonneg {A : Type} (m : M W A) (s : Sys W) (t : Z) :
  Coherent m -> t ∈ clock_readings (trace (m s)) -> 0 <= t.
Proof.
  intros Hco Hin. unfold clock_readings in Hin.
  apply list_elem_of_omap in Hin as (io & Hio & Hread).
  destruct io; try discriminate. injection Hread as ->.
  destruct (Hco s) as [_ Hobs].
  apply list_elem_of_lookup in Hio as (i & Hi).
  apply list_elem_of_split_length in Hi as (pre & post & Heq & _).
  pose proof (holds_along_at _ _ _ Hobs pre _ post Heq) as Ht.
  simpl in Ht. rewrite Ht. apply Z.mod_pos_bound. reflexivity.
Qed.

(** One iteration, from a state whose stored timestamp is the emission
    stamp of the history and a past reading of a clock that has not run
    backwards. *)
Lemma cadence_step (s : Sys W) (hist : list Event) :
  last_emission hist = lastPrintTime s ->
  lastPrintTime s = 0 \/ lastPrintTime s ∈ clock_readings hist ->
  (forall t, t ∈ clock_readings hist -> 0 <= t) ->
  nondecreasing (clock_readings (hist ++ trace (loop s))) = true ->
  exists now : Z,
    head (clock_readings (trace (loop s))) = Some now
    /\ lastPrintTime s = last_emission hist
    /\ (serial_output (trace (loop s)) <> []
        <-> printInterval <= now - last_emission hist)
    /\ (serial_output (trace (loop s)) <> [] ->
        exists t : Z,
          clock_readings (trace (loop s)) = [now; t]
          /\ lastPrintTime (state (loop s)) = t
          /\ last_emission (hist ++ trace (loop s)) = t)
    /\ (serial_output (trace (loop s)) = [] ->
        lastPrintTime (state (loop s)) = last_emission hist
        /\ last_emission (hist ++ trace (loop s)) = last_emission hist).
Proof.
  intros Hstamp Hpast Hpos Hmono.
  exists (clock (at_gate s)).
  assert (Hnow : head (clock_readings (trace (loop s))) = Some (clock (at_gate s))).
  { pose proof (loop_cadence s) as Hc. cbv zeta in Hc.
    destruct (printInterval <=? _); destruct Hc as (-> & _); reflexivity. }
  assert (Hle : lastPrintTime s <= clock (at_gate s)).
  { destruct Hpast as [->|Hin]; [apply clock_range|].
    rewrite clock_readings_app in Hmono.
    destruct (clock_readings (trace (loop s))) as [|x rest] eqn:Hcr;
      [discriminate Hnow|].
    injection Hnow as ->.
    apply (nondecreasing_app_le _ rest _ _ Hmono Hin). }
  assert (Hlo : 0 <= lastPrintTime s).
  { destruct Hpast as [->|Hin]; [lia | apply Hpos, Hin]. }
  assert (Hsub : ulong_sub (clock (at_gate s)) (lastPrintTime s)
                 = clock (at_gate s) - lastPrintTime s).
  { apply ulong_sub_exact. pose proof (clock_range (at_gate s)). lia. }
  pose proof (loop_cadence s) as Hc. cbv zeta in Hc.
  rewrite Hsub in Hc.
  assert (Hext : last_emission (hist ++ trace (loop s))
                 = (foldl stamp_step (foldl stamp_step (0, 0) hist)
                      (trace (loop s))).2)
    by (unfold last_emission; rewrite foldl_app; reflexivity).
  pose proof Hstamp as Hstamp'. unfold last_emission in Hstamp'.
  rewrite Hext, Hstamp.
  split; [exact Hnow|]. split; [reflexivity|].
  destruct (Z.leb_spec printInterval (clock (at_gate s) - lastPrintTime s))
    as [Hdue|Hnot]; destruct Hc as (Hcr & Hso & Hlast & Hfold).
  - split; [split; [intros _; exact Hdue | intros _; exact Hso]|].
    split; [|intros Hnone; destruct (Hso Hnone)].
    intros _. exists (clock (state (millis (at_gate s)))).
    split; [exact Hcr|]. split; [exact Hlast|].
    rewrite Hfold. reflexivity.
  - split; [split; [intros Hsome; destruct (Hsome Hso) | intros Hdue; lia]|].
    split; [intros Hsome; destruct (Hsome Hso)|].
    intros _. split; [exact Hlast|]. rewrite Hfold. exact Hstamp'.
Qed.

End CadenceStep.

(** C7: with a clock that never runs backwards, an iteration of [loop]
    prints exactly when the clock read at the gate is at least 1000 past the
    clock of the last output (the boot time, 0, before any output), however
    many iterations have run since; when it prints, the stored timestamp
    becomes the clock value read for it, and otherwise it is kept. *)
Theorem report_cadence {W : Type} `{Board W} (w0 : W) (n : nat) :
  let hist := trace (run n (boot w0)) in
  let s := state (run n (boot w0)) in
  nondecreasing (clock_readings (hist ++ trace (loop s))) = true ->
  exists now : Z,
    head (clock_readings (trace (loop s))) = Some now
    /\ lastPrintTime s = last_emission hist
    /\ (serial_output (trace (loop s)) <> []
        <-> printInterval <= now - last_emission hist)
    /\ (serial_output (trace (loop s)) <> [] ->
        exists t : Z,
          clock_readings (trace (loop s)) = [now; t]
          /\ lastPrintTime (state (loop s)) = t
          /\ last_emission (hist ++ trace (loop s)) = t)
    /\ (serial_output (trace (loop s)) = [] ->
        lastPrintTime (state (loop s)) = last_emission hist
        /\ last_emission (hist ++ trace (loop s)) = last_emission hist).
Proof.
  cbv zeta. intros Hmono.
  destruct (run_stamp n w0) as [Hstamp Hpast].
  apply (cadence_step _ _ Hstamp Hpast); [|exact Hmono].
  intros t Hin. apply (readings_nonneg (run n) (boot w0) t (coherent_run n) Hin).
Qed.

Lemma report_cadence_witness :
  let w0 := power_on no_keys 0 2000 in
  let hist := trace (run 2 (boot w0)) in
  let s := state (run 2 (boot w0)) in
  nondecreasing (clock_readings (hist ++ trace (loop s))) = true
  /\ exists now : Z,
       head (clock_readings (trace (loop s))) = Some now
       /\ (serial_output (trace (loop s)) <> []
           <-> printInterval <= now - last_emission hist).
Proof.
  split; [vm_compute; reflexivity|].
  destruct (report_cadence (power_on no_keys 0 2000) 2)
    as (now & Hnow & _ & Hiff & _).
  - vm_compute. reflexivity.
  - exists now. split; [exact Hnow | exact Hiff].
Defined.

(** C9: the gate subtracts as [unsigned long] does, modulo 2^32, so its
    value is the true number of milliseconds since the stored timestamp was
    taken even when the clock has wrapped in between, as long as fewer than
    2^32 of them have passed; the iteration prints exactly when that number
    is at least 1000. *)
Theorem cadence_survives_wraparound {W : Type} `{Board W} (s : Sys W) (t_last : Z) :
  lastPrintTime s = t_last mod ulong_modulus ->
  0 <= uptime_ms (board (at_gate s)) - t_last < ulong_modulus ->
  head (clock_readings (trace (loop s)))
  = Some (uptime_ms (board (at_gate s)) mod ulong_modulus)
  /\ ulong_sub (clock (at_gate s)) (lastPrintTime s)
     = uptime_ms (board (at_gate s)) - t_last
  /\ (serial_output (trace (loop s)) <> []
      <-> printInterval <= uptime_ms (board (at_gate s)) - t_last).
Proof.
  intros Hlast Hrange.
  assert (Hsub : ulong_sub (clock (at_gate s)) (lastPrintTime s)
                 = uptime_ms (board (at_gate s)) - t_last).
  { rewrite Hlast. unfold clock. apply ulong_sub_wrapped, Hrange. }
  pose proof (loop_cadence s) as Hc. cbv zeta in Hc. rewrite Hsub in Hc.
  destruct (Z.leb_spec printInterval (uptime_ms (board (at_gate s)) - t_last))
    as [Hdue|Hnot]; destruct Hc as (Hcr & Hso & _).
  - split; [rewrite Hcr; reflexivity|]. split; [exact Hsub|].
    split; [intros _; exact Hdue | intros _; exact Hso].
  - split; [rewrite Hcr; reflexivity|]. split; [exact Hsub|].
    split; [intros Hsome; destruct (Hsome Hso) | intros Hdue; lia].
Qed.

Lemma cadence_survives_wraparound_witness :
  lastPrintTime wrapped_bench = (2 ^ 32 - 900) mod ulong_modulus
  /\ 0 <= uptime_ms (board (at_gate wrapped_bench)) - (2 ^ 32 - 900) < ulong_modulus
  /\ clock (at_gate wrapped_bench) < lastPrintTime wrapped_bench
  /\ serial_output (trace (loop wrapped_bench)) <> [].
Proof.
  assert (Hlast : lastPrintTime wrapped_bench = (2 ^ 32 - 900) mod ulong_modulus)
    by reflexivity.
  assert (Hrange : 0 <= uptime_ms (board (at_gate wrapped_bench)) - (2 ^ 32 - 900)
                   < ulong_modulus)
    by (vm_compute; split; [discriminate | reflexivity]).
  split; [exact Hlast|]. split; [exact Hrange|]. split; [vm_compute; reflexivity|].
  destruct (cadence_survives_wraparound wrapped_bench (2 ^ 32 - 900) Hlast Hrange)
    as (_ & _ & Hiff).
  apply Hiff. vm_compute. discriminate.
Defined.

Lemma sweep_covers_matrix_witness :
  let s := bench (key_at 3 5) 0 2 in
  matrix_shape (matrix s) = true
  /\ length (samples (trace (loop s))) = 72%nat
  /\ (matrix (state (loop s)) !!! 3%nat) !!! 5%nat
     = int_of (samples (trace (loop s)) !!! 32%nat).2.
Proof.
  split; [reflexivity|].
  destruct (sweep_covers_matrix (bench (key_at 3 5) 0 2) eq_refl)
    as (_ & _ & Hlen & Hm).
  split; [exact Hlen|]. apply (Hm 3%nat 5%nat); lia.
Defined.

Lemma report_leaves_snapshot_witness :
  let s1 := bench no_keys 0 2 in
  let s2 := late_bench in
  matrix_shape (matrix s1) = true
  /\ matrix_shape (matrix s2) = true
  /\ (fun x : Sample => x.2) <$> samples (trace (loop s1))
     = (fun x : Sample => x.2) <$> samples (trace (loop s2))
  /\ serial_output (trace (loop s1)) = []
  /\ serial_output (trace (loop s2)) <> []
  /\ matrix (state (loop s1)) = matrix (state (loop s2)).
Proof.
  assert (Hsame : (fun x : Sample => x.2) <$> samples (trace (loop (bench no_keys 0 2)))
                  = (fun x : Sample => x.2) <$> samples (trace (loop late_bench)))
    by (vm_compute; reflexivity).
  split; [reflexivity|]. split; [reflexivity|]. split; [exact Hsame|].
  split; [vm_compute; reflexivity|]. split; [vm_compute; discriminate|].
  apply (report_leaves_snapshot (bench no_keys 0 2) late_bench eq_refl eq_refl Hsame).
Defined.

(** * Further properties *)

Section Globals.
Context {W : Type} `{Board W}.

Lemma setup_trace (s : Sys W) :
  trace (setup s) = (Call <$> setup_config) ++ driver_events FclearAllColumns 0.
Proof.
  unfold setup. rewrite !bind_trace, clearAllColumns_trace. reflexivity.
Qed.

Lemma setup_keeps_globals (s : Sys W) :
  matrix (state (setup s)) = matrix s
  /\ lastPrintTime (state (setup s)) = lastPrintTime s.
Proof. split; reflexivity. Qed.

(** One more iteration of a run. *)
Lemma run_S (n : nat) (s : Sys W) :
  state (run (S n) s) = state (loop (state (run n s)))
  /\ trace (run (S n) s) = trace (run n s) ++ trace (loop (state (run n s))).
Proof.
  unfold run. cbn [loops]. rewrite !bind_state, !bind_trace, app_assoc.
  split; reflexivity.
Qed.

Lemma table_is_binary (tbl : list (list bool)) :
  binary_matrix (table_of tbl) = true.
Proof.
  unfold binary_matrix, table_of.
  induction tbl as [|lv tbl IH]; [reflexivity|].
  cbn [fmap list_fmap forallb]. rewrite IH, andb_true_r.
  induction lv as [|b lv IHlv]; [reflexivity|].
  cbn [fmap list_fmap forallb]. rewrite IHlv. destruct b; reflexivity.
Qed.

Lemma table_has_shape (tbl : list (list bool)) :
  table_shape tbl -> matrix_shape (table_of tbl) = true.
Proof. intros Hshape. explode_table tbl Hshape. reflexivity. Qed.

End Globals.

(** X1: whatever the board does, after [setup] and any number of iterations
    of [loop] the snapshot is an 8 by 9 table of zeros and ones, as the
    declaration of [matrix] says, and the stored timestamp is a value of an
    [unsigned long]. *)
Theorem globals_keep_their_types {W : Type} `{Board W} (w0 : W) (n : nat) :
  matrix_shape (matrix (state (run n (boot w0)))) = true
  /\ binary_matrix (matrix (state (run n (boot w0)))) = true
  /\ 0 <= lastPrintTime (state (run n (boot w0))) < ulong_modulus.
Proof.
  induction n as [|n (IHs & IHb & IHt)].
  - unfold run. cbn [loops]. rewrite bind_state.
    change (state (ret tt ?x)) with x.
    destruct (setup_keeps_globals (boot w0)) as [-> ->].
    split; [reflexivity|]. split; [reflexivity|]. split; [reflexivity|reflexivity].
  - destruct (run_S n (boot w0)) as [-> _].
    destruct (loop_trace (state (run n (boot w0))))
      as (tbl & rest & Hshape & _ & _ & Hm).
    rewrite (Hm IHs).
    split; [apply table_has_shape, Hshape|]. split; [apply table_is_binary|].
    pose proof (loop_cadence (state (run n (boot w0)))) as Hc. cbv zeta in Hc.
    destruct (printInterval <=? _); destruct Hc as (_ & _ & -> & _).
    + apply clock_range.
    + exact IHt.
Qed.

Section RigExtras.

Lemma setup_config_quiet : Forall (fun io => ~ is_write io) setup_config.
Proof. repeat constructor; intros []. Qed.

Lemma loop_keeps_contacts (s : Sys Rig) :
  srclk (board s) = false ->
  contacts (board (state (loop s))) = contacts (board s).
Proof.
  intros Hlow.
  destruct (rig_loop s Hlow) as (rest & _ & Hrest & _ & _ & _ & _ & Hk & Hb).
  rewrite Hb. destruct (chatter_calls rest Hrest) as [Hquiet _].
  etransitivity; [exact (proj2 (proj2 (rig_steady _ _ Hquiet))) | exact Hk].
Qed.

Lemma loops_keep_contacts (n : nat) (s : Sys Rig) :
  ready s -> contacts (board (state (loops n s))) = contacts (board s).
Proof.
  intros Hr. induction n as [|n IH]; [reflexivity|].
  cbn [loops]. rewrite bind_state.
  rewrite loop_keeps_contacts; [exact IH | apply (loops_ready n s Hr)].
Qed.

End RigExtras.

(** X2: on the simulated board, whatever the shift register holds at power
    on, [setup] ends with no column line high; it needs the clock line low
    at the start, and leaves it low, the keys as they are and the globals
    untouched. *)
Theorem setup_clears_columns (s : Sys Rig) :
  srclk (board s) = false ->
  columns_high (board (state (setup s))) = 0%nat
  /\ srclk (board (state (setup s))) = false
  /\ contacts (board (state (setup s))) = contacts (board s)
  /\ matrix (state (setup s)) = matrix s
  /\ lastPrintTime (state (setup s)) = lastPrintTime s.
Proof.
  intros Hlow.
  destruct (coherent_setup s) as [Hb _].
  rewrite setup_trace, calls_app, calls_Call, calls_driver, replay_app in Hb.
  destruct (rig_steady setup_config (board s) setup_config_quiet)
    as (Hc & _ & Hk).
  rewrite Hlow in Hc.
  destruct (rig_frame 0 _ Hc) as (Hc' & Hq & Hk').
  rewrite <- Hb in Hc', Hq, Hk'.
  split; [unfold columns_high, column_line; rewrite Hq; reflexivity|].
  split; [exact Hc'|]. split; [rewrite Hk'; exact Hk|].
  apply setup_keeps_globals.
Qed.

Lemma setup_clears_columns_witness :
  srclk (board lit_bench) = false
  /\ columns_high (board lit_bench) = 8%nat
  /\ columns_high (board (state (setup lit_bench))) = 0%nat.
Proof.
  split; [reflexivity|]. split; [reflexivity|].
  apply (setup_clears_columns lit_bench eq_refl).
Defined.

(** X3: on the simulated board, after one or more sweeps the snapshot shows
    at every position whether that contact is closed, for any set of closed
    contacts and any earlier contents: no key is missed, none is invented,
    and sweeping again changes nothing while the keys stay as they are. *)
Theorem snapshot_mirrors_keys (s : Sys Rig) (n c r : nat) :
  ready s -> (c < 8)%nat -> (r < 9)%nat ->
  (matrix (state (loops (S n) s)) !!! c) !!! r = int_of (contacts (board s) c r).
Proof.
  intros Hr Hc Hrow. cbn [loops]. rewrite bind_state.
  destruct (loops_ready n s Hr) as [Hlow Hs].
  rewrite rig_snapshot by assumption.
  rewrite loops_keep_contacts by exact Hr. reflexivity.
Qed.

Lemma snapshot_mirrors_keys_witness :
  ready (bench corner_keys 0 2)
  /\ (matrix (state (loops 3 (bench corner_keys 0 2))) !!! 0%nat) !!! 0%nat = 1
  /\ (matrix (state (loops 3 (bench corner_keys 0 2))) !!! 7%nat) !!! 8%nat = 1
  /\ (matrix (state (loops 3 (bench corner_keys 0 2))) !!! 7%nat) !!! 0%nat = 0
  /\ (matrix (state (loops 3 (bench corner_keys 0 2))) !!! 0%nat) !!! 8%nat = 0.
Proof.
  assert (Hr : ready (bench corner_keys 0 2)) by (split; reflexivity).
  split; [exact Hr|].
  split; [apply (snapshot_mirrors_keys _ 2 0 0 Hr); lia|].
  split; [apply (snapshot_mirrors_keys _ 2 7 8 Hr); lia|].
  split; [apply (snapshot_mirrors_keys _ 2 7 0 Hr); lia|].
  apply (snapshot_mirrors_keys _ 2 0 8 Hr); lia.
Defined.

Section Preparation.
Context {W : Type} `{Board W}.

Lemma prepared_chatter (rest : list Event) :
  Forall chatter rest -> foldl prep_step prepared rest = prepared.
Proof.
  intros Hall. induction Hall as [|e rest He _ IH]; [reflexivity|].
  cbn [foldl]. destruct e as [[]| |]; try (exfalso; exact He);
    (etransitivity; [|exact IH]); f_equal; vm_compute; reflexivity.
Qed.

Lemma prepared_setup (s : Sys W) : preparation (trace (setup s)) = prepared.
Proof.
  unfold preparation. rewrite setup_trace, foldl_app.
  fold (preparation (Call <$> setup_config)). fold prepared.
  vm_compute. reflexivity.
Qed.

Lemma prepared_loop (s : Sys W) :
  foldl prep_step prepared (trace (loop s)) = prepared.
Proof.
  destruct (loop_trace s) as (tbl & rest & Hshape & -> & Hrest & _).
  rewrite foldl_app. etransitivity; [|exact (prepared_chatter rest Hrest)].
  f_equal. explode_table tbl Hshape. vm_compute. reflexivity.
Qed.

Lemma prepared_loops (n : nat) (s : Sys W) :
  foldl prep_step prepared (trace (loops n s)) = prepared.
Proof.
  induction n as [|n IH]; [reflexivity|].
  cbn [loops]. rewrite bind_trace, foldl_app, IH. apply prepared_loop.
Qed.

End Preparation.

(** X4: in every run, on every board, the serial port is begun once, at
    115200 baud, before anything is printed; every pin is given its mode
    once and before its first use; the three register pins are only written
    and are outputs, the nine row pins are only read and are pulled-down
    inputs; no other pin is touched. *)
Theorem pins_prepared_before_use {W : Type} `{Board W} (s : Sys W) (n : nat) :
  prep_ok (preparation (trace (run n s))) = true
  /\ baud_rate (preparation (trace (run n s))) = Some 115200
  /\ pin_modes (preparation (trace (run n s))) = list_to_map pin_plan
  /\ NoDup pin_plan.*1.
Proof.
  assert (Hp : preparation (trace (run n s)) = prepared).
  { unfold run, preparation. rewrite bind_trace, foldl_app.
    fold (preparation (trace (setup s))). rewrite prepared_setup.
    apply prepared_loops. }
  rewrite Hp. split; [vm_compute; reflexivity|]. split; [vm_compute; reflexivity|].
  split; [vm_compute; reflexivity|].
  apply (bool_decide_unpack _). vm_compute. exact I.
Qed.

Section FreshReport.
Context {W : Type} `{Board W}.

(** An iteration that prints, in full: the sweep for some table of levels,
    the clear, two clock readings, the report of that table. *)
Lemma printing_loop (s : Sys W) :
  matrix_shape (matrix s) = true ->
  serial_output (trace (loop s)) <> [] ->
  exists (tbl : list (list bool)) (a b : Z),
    table_shape tbl
    /\ matrix (state (loop s)) = table_of tbl
    /\ trace (loop s)
       = (sweep_events tbl ++ driver_events FclearAllColumns 0)
         ++ Call (Millis a) :: Call (Millis b)
              :: (Call <$> print_events (table_of tbl)).
Proof.
  intros Hs Hout.
  destruct (loop_spec s) as (tbl & Hshape & Hevs & Hst & Ht & Hm).
  specialize (Hm Hs).
  pose proof (report_spec (at_gate s)) as Hr. cbv zeta in Hr.
  destruct Hr as [Hrm Hr]. rewrite Ht in Hr.
  pose proof (loop_cadence s) as Hc. cbv zeta in Hc.
  destruct (printInterval <=? _).
  - destruct Hr as [Hrt _].
    exists tbl, (clock (at_gate s)), (clock (state (millis (at_gate s)))).
    split; [exact Hshape|].
    split; [rewrite Hst, Hrm; exact Hm|].
    rewrite Hevs, Hrt, Hm, app_assoc. reflexivity.
  - destruct Hc as (_ & Hnone & _). destruct (Hout Hnone).
Qed.

End FreshReport.

(** X5: an iteration that prints sends the whole report, twelve lines, and
    the report shows the snapshot of that same iteration's sweep: the column
    labels 0..7, the row labels 0..8, and row by row the eight cells of each
    row, so that the cell of row [r] and column [c] is the level read for
    column [c] and row [r] a moment before. *)
Theorem report_shows_fresh_snapshot {W : Type} `{Board W} (s : Sys W) :
  matrix_shape (matrix s) = true ->
  serial_output (trace (loop s)) <> [] ->
  serial_output (trace (loop s)) = print_events (matrix (state (loop s)))
  /\ length (line_ends (serial_output (trace (loop s)))) = 12%nat
  /\ ints_after "C" (serial_output (trace (loop s))) = Z.of_nat <$> seq 0 8
  /\ ints_after "R" (serial_output (trace (loop s))) = Z.of_nat <$> seq 0 9
  /\ ints_after " " (serial_output (trace (loop s)))
     = (fun rc : nat * nat => (matrix (state (loop s)) !!! rc.2) !!! rc.1)
       <$> row_major
  /\ forall r c : nat, (r < 9)%nat -> (c < 8)%nat ->
       ints_after " " (serial_output (trace (loop s))) !!! (8 * r + c)%nat
       = int_of (samples (trace (loop s)) !!! (9 * c + r)%nat).2.
Proof.
  intros Hs Hout.
  destruct (printing_loop s Hs Hout) as (tbl & a & b & Hshape & -> & ->).
  clear Hs Hout. explode_table tbl Hshape.
  split; [vm_compute; reflexivity|]. split; [vm_compute; reflexivity|].
  split; [vm_compute; reflexivity|]. split; [vm_compute; reflexivity|].
  split; [vm_compute; reflexivity|].
  intros r c Hr Hc.
  do 9 (destruct r as [|r]; [do 8 (destruct c as [|c]; [vm_compute; reflexivity|]); lia|]).
  lia.
Qed.

Lemma report_shows_fresh_snapshot_witness :
  matrix_shape (matrix late_bench) = true
  /\ serial_output (trace (loop late_bench)) <> []
  /\ length (line_ends (serial_output (trace (loop late_bench)))) = 12%nat.
Proof.
  assert (Hout : serial_output (trace (loop late_bench)) <> [])
    by (vm_compute; discriminate).
  split; [reflexivity|]. split; [exact Hout|].
  apply (report_shows_fresh_snapshot late_bench eq_refl Hout).
Defined.

Section Spacing.
Context {W : Type} `{Board W}.

Lemma nondecreasing_app_l (l1 l2 : list Z) :
  nondecreasing (l1 ++ l2) = true -> nondecreasing l1 = true.
Proof.
  induction l1 as [|a l1 IH]; [reflexivity|].
  intros Hnd. destruct l1 as [|b l1]; [reflexivity|].
  change (((a <=? b) && nondecreasing ((b :: l1) ++ l2)) = true) in Hnd.
  change (((a <=? b) && nondecreasing (b :: l1)) = true).
  apply andb_true_iff in Hnd as [Hab Hnd].
  rewrite Hab, (IH Hnd). reflexivity.
Qed.

Lemma nondecreasing_app_r (l1 l2 : list Z) :
  nondecreasing (l1 ++ l2) = true -> nondecreasing l2 = true.
Proof.
  induction l1 as [|a l1 IH]; [trivial|].
  intros Hnd. apply IH. apply (nondecreasing_tail a). exact Hnd.
Qed.

Lemma nondecreasing_pair (a b : Z) : nondecreasing [a; b] = true -> a <= b.
Proof. simpl. rewrite andb_true_r. apply Z.leb_le. Qed.

Lemma spaced_snoc (d x y : Z) (l : list Z) :
  spaced d l = true -> last l = Some y -> y + d <= x ->
  spaced d (l ++ [x]) = true /\ last (l ++ [x]) = Some x.
Proof.
  intros Hsp Hlast Hle. split; [|apply last_snoc].
  induction l as [|a l IH]; [discriminate Hlast|].
  destruct l as [|b l].
  - injection Hlast as ->. simpl. rewrite andb_true_r. lia.
  - change (((a + d <=? b) && spaced d (b :: l)) = true) in Hsp.
    change (((a + d <=? b) && spaced d ((b :: l) ++ [x])) = true).
    apply andb_true_iff in Hsp as [Hab Hsp].
    rewrite Hab. apply IH; assumption.
Qed.

(** The bursts of one iteration, whatever was recorded before it. *)
Lemma loop_bursts (s : Sys W) (st : Z * bool * list Z) :
  let now := clock (at_gate s) in
  let t := clock (state (millis (at_gate s))) in
  if printInterval <=? ulong_sub now (lastPrintTime s) then
    foldl burst_step st (trace (loop s)) = (t, true, st.2 ++ [t])
  else
    foldl burst_step st (trace (loop s)) = (now, false, st.2).
Proof.
  intros now t.
  pose proof (loop_gate s) as Hg. cbv zeta in Hg.
  destruct Hg as (front & Hfront & Hg). fold now in Hg. fold t in Hg.
  assert (Hskip : foldl burst_step st front = st).
  { apply (foldl_skip burst_step pinwork front Hfront).
    intros st' [[]| |]; simpl; tauto. }
  destruct (printInterval <=? _); destruct Hg as [-> _];
    rewrite foldl_app, Hskip; destruct st as [[clk flag] acc]; reflexivity.
Qed.

End Spacing.

(** X6: under a clock that never runs backwards, the reports of a run are
    at least [printInterval] apart, and the first of them comes no earlier
    than that after boot: the clock value under which a report was printed
    is at least 1000 more than that of the report before.  There is at most
    one report for each iteration, and the stored timestamp is the clock
    value of the last one. *)
Theorem reports_an_interval_apart {W : Type} `{Board W} (w0 : W) (n : nat) :
  nondecreasing (clock_readings (trace (run n (boot w0)))) = true ->
  spaced printInterval (0 :: report_stamps (trace (run n (boot w0)))) = true
  /\ last (0 :: report_stamps (trace (run n (boot w0))))
     = Some (lastPrintTime (state (run n (boot w0))))
  /\ (length (report_stamps (trace (run n (boot w0)))) <= n)%nat.
Proof.
  induction n as [|n IH]; intros Hmono.
  - unfold report_stamps, run. cbn [loops].
    rewrite !bind_trace, !bind_state, app_nil_r.
    change (state (ret tt ?x)) with x.
    destruct (setup_pinwork (boot w0)) as [Hpw ->].
    rewrite (foldl_skip burst_step pinwork _ Hpw)
      by (intros st' [[]| |]; simpl; tauto).
    split; [reflexivity|]. split; [reflexivity|]. simpl. lia.
  - destruct (run_S n (boot w0)) as [Hstate Htrace].
    rewrite Hstate, Htrace. rewrite Htrace, clock_readings_app in Hmono.
    destruct (IH (nondecreasing_app_l _ _ Hmono)) as (IHsp & IHlast & IHlen).
    destruct (run_stamp n w0) as [_ Hpast].
    revert Hmono IHsp IHlast IHlen Hpast.
    unfold report_stamps. rewrite foldl_app.
    generalize (foldl burst_step (0, false, []) (trace (run n (boot w0)))).
    assert (Hpos : forall x, x ∈ clock_readings (trace (run n (boot w0))) -> 0 <= x)
      by (intros x; apply (readings_nonneg (run n) (boot w0) x (coherent_run n))).
    revert Hpos.
    generalize (clock_readings (trace (run n (boot w0)))).
    generalize (state (run n (boot w0))).
    intros s readings Hpos st Hmono IHsp IHlast IHlen Hpast.
    pose proof (loop_cadence s) as Hc. cbv zeta in Hc.
    pose proof (loop_bursts s st) as Hb. cbv zeta in Hb.
    destruct (printInterval <=? ulong_sub (clock (at_gate s)) (lastPrintTime s))
      eqn:Hdue; destruct Hc as (Hcr & _ & Hlast & _); rewrite Hb, Hlast.
    + rewrite Hcr in Hmono. cbn [snd].
      assert (Hle : lastPrintTime s <= clock (at_gate s)).
      { destruct Hpast as [->|Hin]; [apply clock_range|].
        apply (nondecreasing_app_le _ _ _ _ Hmono Hin). }
      assert (Hlo : 0 <= lastPrintTime s).
      { destruct Hpast as [->|Hin]; [lia | apply Hpos, Hin]. }
      assert (Hstep : clock (at_gate s) <= clock (state (millis (at_gate s)))).
      { apply (nondecreasing_pair _ _ (nondecreasing_app_r _ _ Hmono)). }
      assert (Hsub : ulong_sub (clock (at_gate s)) (lastPrintTime s)
                     = clock (at_gate s) - lastPrintTime s).
      { apply ulong_sub_exact. pose proof (clock_range (at_gate s)). lia. }
      rewrite Hsub in Hdue. apply Z.leb_le in Hdue.
      destruct (spaced_snoc printInterval (clock (state (millis (at_gate s))))
                  (lastPrintTime s) (0 :: st.2) IHsp IHlast) as [Hsp' Hlast'];
        [lia|].
      split; [exact Hsp'|]. split; [exact Hlast'|].
      rewrite length_app. simpl. lia.
    + cbn [snd]. split; [exact IHsp|]. split; [exact IHlast|]. lia.
Qed.

Lemma reports_an_interval_apart_witness :
  nondecreasing (clock_readings (trace (run 6 (boot (power_on no_keys 0 2000)))))
  = true
  /\ report_stamps (trace (run 6 (boot (power_on no_keys 0 2000))))
     = [1338; 2530; 3722; 4915; 6107]
  /\ spaced printInterval
       (0 :: report_stamps (trace (run 6 (boot (power_on no_keys 0 2000)))))
     = true.
Proof.
  assert (Hmono : nondecreasing
                    (clock_readings (trace (run 6 (boot (power_on no_keys 0 2000)))))
                  = true) by (vm_compute; reflexivity).
  split; [exact Hmono|]. split; [vm_compute; reflexivity|].
  apply (reports_an_interval_apart (power_on no_keys 0 2000) 6 Hmono).
Defined.

(** X7: [activateColumn] overwrites the whole register: started with the
    clock line low, it leaves bit [c] of its byte on column line [c], for
    whatever was latched or half shifted in before, with the clock line low
    again and the keys as they were.  So one activation replaces the
    previous one without a clear between them. *)
Theorem activateColumn_overwrites_register (s : Sys Rig) (v : Z) (c : nat) :
  srclk (board s) = false -> (c < 8)%nat ->
  column_line (board (state (activateColumn v s))) c = Z.testbit v (Z.of_nat c)
  /\ srclk (board (state (activateColumn v s))) = false
  /\ contacts (board (state (activateColumn v s))) = contacts (board s)
  /\ matrix (state (activateColumn v s)) = matrix s
  /\ lastPrintTime (state (activateColumn v s)) = lastPrintTime s.
Proof.
  intros Hlow Hc.
  destruct (coherent_activateColumn v s) as [Hb _].
  rewrite activateColumn_trace, calls_driver in Hb.
  destruct (rig_frame v _ Hlow) as (Hc' & Hq & Hk).
  rewrite <- Hb in Hc', Hq, Hk.
  split; [|split; [exact Hc'|split; [exact Hk|split; reflexivity]]].
  unfold column_line. rewrite Hq, lsb_first_bits.
  do 8 (destruct c as [|c]; [reflexivity|]). lia.
Qed.

Lemma activateColumn_overwrites_register_witness :
  columns_high (board lit_bench) = 8%nat
  /\ column_line (board (state (activateColumn 4 lit_bench))) 2 = true
  /\ columns_high (board (state (activateColumn 4 lit_bench))) = 1%nat.
Proof.
  split; [reflexivity|].
  split; [|vm_compute; reflexivity].
  apply (activateColumn_overwrites_register lit_bench 4 2 eq_refl). lia.
Defined.
